(** * custom-electron-titlebar: keybinding encoding, menu action tree,
      mnemonic labels and the host-side window relay

    A shallow embedding of
      - [src/main/attach-titlebar-to-window.ts] (the relay installed on a
        browser window, and the keybinding value classes that follow it),
      - [src/titlebar.ts] ([updateMenu] with its local [updateActions], and
        [mnemonicMenuLabel]).

    JavaScript numbers that the code only uses as integers are [Z];
    JavaScript strings are [string] (the transforms single out [&], [(],
    [)] and the ASCII word characters, and copy every other character);
    arrays are [list]; objects are records; code that mutates an array or
    talks to the window threads the state explicitly. *)

From Stdlib Require Import ZArith QArith Bool List Lia.
From Stdlib Require Import Strings.Ascii Strings.String.
From Stdlib Require Import Numbers.DecimalString Numbers.DecimalZ.
Import ListNotations.

#[local] Set Warnings "-register-all".

Local Open Scope Z_scope.

(* ================================================================== *)
(** ** JavaScript integer primitives *)

(** [ToInt32]: the value modulo 2^32, read as a signed 32-bit integer. *)
Definition ToInt32 (z : Z) : Z := (z + 2 ^ 31) mod 2 ^ 32 - 2 ^ 31.

(** [ToUint32]: the value modulo 2^32. *)
Definition ToUint32 (z : Z) : Z := z mod 2 ^ 32.

(** [a & b]: both operands go through [ToInt32]. *)
Definition js_and (a b : Z) : Z := Z.land (ToInt32 a) (ToInt32 b).

(** [a << n] on numbers. *)
Definition js_shl (a n : Z) : Z := ToInt32 (Z.shiftl (ToInt32 a) (ToUint32 n mod 32)).

(** [a >>> n] on numbers. *)
Definition js_ushr (a n : Z) : Z := Z.shiftr (ToUint32 a) (ToUint32 n mod 32).

(** Truthiness of a number: everything but zero. *)
Definition truthy (z : Z) : bool := negb (z =? 0).

(* ================================================================== *)
(** ** Platform *)

(** [OperatingSystem] of vs/base/common/platform. *)
Inductive OperatingSystem : Type := Windows | Macintosh | Linux.

Definition OperatingSystem_eqb (a b : OperatingSystem) : bool :=
  match a, b with
  | Windows, Windows | Macintosh, Macintosh | Linux, Linux => true
  | _, _ => false
  end.

(* ================================================================== *)
(** ** Key codes and scan codes

    The enums [KeyCode] and [ScanCode] are declared in
    vs/base/common/keyCodes, outside the files embedded here.  The members
    the code refers to are taken as parameters. *)

Class KeyCodeEnum : Type := {
  KeyCode_Unknown : Z;
  KeyCode_Shift : Z;
  KeyCode_Ctrl : Z;
  KeyCode_Alt : Z;
  KeyCode_Meta : Z;
  KeyCode_KeyA : Z
}.

Class ScanCodeEnum : Type := {
  ScanCode_KeyA : Z;
  ScanCode_ControlLeft : Z;
  ScanCode_ShiftLeft : Z;
  ScanCode_AltLeft : Z;
  ScanCode_MetaLeft : Z;
  ScanCode_ControlRight : Z;
  ScanCode_ShiftRight : Z;
  ScanCode_AltRight : Z;
  ScanCode_MetaRight : Z
}.

(** The four modifiers of the [Modifiers] interface. *)
Inductive Modifier : Type := ModCtrl | ModShift | ModAlt | ModMeta.

(* ================================================================== *)
(** ** Binary encoding of a keybinding

<<
    1111 11
    5432 1098 7654 3210
    ---- CSAW KKKK KKKK
>> *)

Module BinaryKeybindingsMask.
Definition CtrlCmd : Z := js_ushr (js_shl 1 11) 0.
Definition Shift : Z := js_ushr (js_shl 1 10) 0.
Definition Alt : Z := js_ushr (js_shl 1 9) 0.
Definition WinCtrl : Z := js_ushr (js_shl 1 8) 0.
Definition KeyCode : Z := 255.
End BinaryKeybindingsMask.

Module SimpleKeybinding.

Record t : Type := new {
  ctrlKey : bool;
  shiftKey : bool;
  altKey : bool;
  metaKey : bool;
  keyCode : Z
}.

Definition equals (this other : t) : bool :=
  Bool.eqb (ctrlKey this) (ctrlKey other)
  && Bool.eqb (shiftKey this) (shiftKey other)
  && Bool.eqb (altKey this) (altKey other)
  && Bool.eqb (metaKey this) (metaKey other)
  && (keyCode this =? keyCode other).

(** A number inside a template literal: its decimal notation. *)
Definition number_to_string (z : Z) : string :=
  NilZero.string_of_int (Z.to_int z).

Definition digit (b : bool) : string := if b then "1"%string else "0"%string.

Definition getHashCode (this : t) : string :=
  let ctrl := digit (ctrlKey this) in
  let shift := digit (shiftKey this) in
  let alt := digit (altKey this) in
  let meta := digit (metaKey this) in
  (ctrl ++ shift ++ alt ++ meta ++ number_to_string (keyCode this))%string.

Section WithKeyCodes.
Context {KC : KeyCodeEnum}.

Definition isModifierKey (this : t) : bool :=
  (keyCode this =? KeyCode_Unknown)
  || (keyCode this =? KeyCode_Ctrl)
  || (keyCode this =? KeyCode_Meta)
  || (keyCode this =? KeyCode_Alt)
  || (keyCode this =? KeyCode_Shift).

Definition isDuplicateModifierCase (this : t) : bool :=
  (ctrlKey this && (keyCode this =? KeyCode_Ctrl))
  || (shiftKey this && (keyCode this =? KeyCode_Shift))
  || (altKey this && (keyCode this =? KeyCode_Alt))
  || (metaKey this && (keyCode this =? KeyCode_Meta)).

(** The key code that names a modifier. *)
Definition code_of (m : Modifier) : Z :=
  match m with
  | ModCtrl => KeyCode_Ctrl
  | ModShift => KeyCode_Shift
  | ModAlt => KeyCode_Alt
  | ModMeta => KeyCode_Meta
  end.
End WithKeyCodes.

Definition flag (m : Modifier) (this : t) : bool :=
  match m with
  | ModCtrl => ctrlKey this
  | ModShift => shiftKey this
  | ModAlt => altKey this
  | ModMeta => metaKey this
  end.

End SimpleKeybinding.

Module ScanCodeBinding.

Record t : Type := new {
  ctrlKey : bool;
  shiftKey : bool;
  altKey : bool;
  metaKey : bool;
  scanCode : Z
}.

Definition equals (this other : t) : bool :=
  Bool.eqb (ctrlKey this) (ctrlKey other)
  && Bool.eqb (shiftKey this) (shiftKey other)
  && Bool.eqb (altKey this) (altKey other)
  && Bool.eqb (metaKey this) (metaKey other)
  && (scanCode this =? scanCode other).

Section WithScanCodes.
Context {SC : ScanCodeEnum}.

Definition isDuplicateModifierCase (this : t) : bool :=
  (ctrlKey this
     && ((scanCode this =? ScanCode_ControlLeft) || (scanCode this =? ScanCode_ControlRight)))
  || (shiftKey this
     && ((scanCode this =? ScanCode_ShiftLeft) || (scanCode this =? ScanCode_ShiftRight)))
  || (altKey this
     && ((scanCode this =? ScanCode_AltLeft) || (scanCode this =? ScanCode_AltRight)))
  || (metaKey this
     && ((scanCode this =? ScanCode_MetaLeft) || (scanCode this =? ScanCode_MetaRight))).

(** The two scan codes (left and right key) that name a modifier. *)
Definition codes_of (m : Modifier) : Z * Z :=
  match m with
  | ModCtrl => (ScanCode_ControlLeft, ScanCode_ControlRight)
  | ModShift => (ScanCode_ShiftLeft, ScanCode_ShiftRight)
  | ModAlt => (ScanCode_AltLeft, ScanCode_AltRight)
  | ModMeta => (ScanCode_MetaLeft, ScanCode_MetaRight)
  end.
End WithScanCodes.

Definition flag (m : Modifier) (this : t) : bool :=
  match m with
  | ModCtrl => ctrlKey this
  | ModShift => shiftKey this
  | ModAlt => altKey this
  | ModMeta => metaKey this
  end.

End ScanCodeBinding.

Definition createSimpleKeybinding (keybinding : Z) (OS : OperatingSystem)
  : SimpleKeybinding.t :=
  let ctrlCmd := truthy (js_and keybinding BinaryKeybindingsMask.CtrlCmd) in
  let winCtrl := truthy (js_and keybinding BinaryKeybindingsMask.WinCtrl) in
  let ctrlKey := if OperatingSystem_eqb OS Macintosh then winCtrl else ctrlCmd in
  let shiftKey := truthy (js_and keybinding BinaryKeybindingsMask.Shift) in
  let altKey := truthy (js_and keybinding BinaryKeybindingsMask.Alt) in
  let metaKey := if OperatingSystem_eqb OS Macintosh then ctrlCmd else winCtrl in
  let keyCode := js_and keybinding BinaryKeybindingsMask.KeyCode in
  SimpleKeybinding.new ctrlKey shiftKey altKey metaKey keyCode.

(** The value of a binary literal, most significant digit first. *)
Definition binary (digits : list Z) : Z :=
  fold_left (fun acc d => 2 * acc + d) digits 0.

(** A numbering of the members, all distinct as enum members are, to run
    the definitions on. *)
Definition sample_KeyCode : KeyCodeEnum :=
  {| KeyCode_Unknown := 0; KeyCode_Shift := 4; KeyCode_Ctrl := 5;
     KeyCode_Alt := 6; KeyCode_Meta := 57; KeyCode_KeyA := 31 |}.

Definition sample_ScanCode : ScanCodeEnum :=
  {| ScanCode_KeyA := 10;
     ScanCode_ControlLeft := 157; ScanCode_ShiftLeft := 158;
     ScanCode_AltLeft := 159; ScanCode_MetaLeft := 160;
     ScanCode_ControlRight := 161; ScanCode_ShiftRight := 162;
     ScanCode_AltRight := 163; ScanCode_MetaRight := 164 |}.

(* ================================================================== *)
(** ** Host-side relay: [attach-titlebar-to-window]

    The part of an [Electron.BrowserWindow] the relay touches: its minimum
    size, its event listeners, and the messages sent to its web contents.
    A listener is what its callback does to the list of sent messages. *)

Definition Message : Type := (string * bool)%type.

Definition Listener : Type := list Message -> list Message.

Record BrowserWindow : Type := mkBrowserWindow {
  minimumSize : list Z;
  listeners : list (string * Listener);
  sent : list Message
}.

Definition getMinimumSize (bw : BrowserWindow) : list Z := minimumSize bw.

Definition setMinimumSize (width height : Z) (bw : BrowserWindow) : BrowserWindow :=
  mkBrowserWindow [width; height] (listeners bw) (sent bw).

(** [browserWindow.on(event, listener)]: listeners run in registration order. *)
Definition on (event : string) (l : Listener) (bw : BrowserWindow) : BrowserWindow :=
  mkBrowserWindow (minimumSize bw) (listeners bw ++ [(event, l)]) (sent bw).

(** [browserWindow.webContents.send(channel, payload)]. *)
Definition send (channel : string) (payload : bool) : Listener :=
  fun log => log ++ [(channel, payload)].

(** The window emits [event]: every listener registered for it runs. *)
Definition emit (event : string) (bw : BrowserWindow) : BrowserWindow :=
  mkBrowserWindow (minimumSize bw) (listeners bw)
    (fold_left (fun log el => if String.eqb (fst el) event then snd el log else log)
               (listeners bw) (sent bw)).

(** Truthiness of [sizes[1]]: a missing element is [undefined]. *)
Definition truthy_at (sizes : list Z) (i : nat) : bool :=
  match nth_error sizes i with
  | Some z => truthy z
  | None => false
  end.

(** The height computed before [setMinimumSize]. *)
Definition attach_height (sizes : list Z) : Z :=
  let height := 270 in
  if (1 <=? Z.of_nat (List.length sizes)) then
    fold_left (fun height size => if truthy_at sizes 1 then size else height) sizes height
  else height.

Definition attach (browserWindow : BrowserWindow) : BrowserWindow :=
  let sizes := getMinimumSize browserWindow in
  let height := attach_height sizes in
  let bw := setMinimumSize 400 height browserWindow in
  let bw := on "enter-full-screen" (send "window-fullscreen" true) bw in
  let bw := on "leave-full-screen" (send "window-fullscreen" false) bw in
  let bw := on "focus" (send "window-focus" true) bw in
  let bw := on "blur" (send "window-focus" false) bw in
  bw.

(* ================================================================== *)
(** ** Mnemonic labels *)

Local Open Scope char_scope.

(** The class [\w] of a regular expression without flags: [A-Za-z0-9_]. *)
Definition is_word (c : ascii) : bool :=
  let n := N_of_ascii c in
  ((48 <=? n) && (n <=? 57) || (65 <=? n) && (n <=? 90)
   || (n =? 95) || (97 <=? n) && (n <=? 122))%N.

(** [s.replace(/\(&&\w\)|&&/g, '')]: scanning from the left, a match of
    either alternative is dropped and the scan resumes after it; any other
    character is copied. *)
Fixpoint strip_mnemonics (s : string) : string :=
  match s with
  | EmptyString => EmptyString
  | String c0 t0 =>
      match t0 with
      | String c1 (String c2 (String c3 (String c4 t4)) as t1) =>
          if (c0 =? "(") && (c1 =? "&") && (c2 =? "&") && is_word c3 && (c4 =? ")")
          then strip_mnemonics t4
          else if (c0 =? "&") && (c1 =? "&") then strip_mnemonics t1
          else String c0 (strip_mnemonics t0)
      | String c1 t1 =>
          if (c0 =? "&") && (c1 =? "&") then strip_mnemonics t1
          else String c0 (strip_mnemonics t0)
      | EmptyString => String c0 (strip_mnemonics t0)
      end
  end.

(** [s.replace(/&/g, r)] for a replacement [r] without [$]. *)
Fixpoint replace_amp (r : string) (s : string) : string :=
  match s with
  | EmptyString => EmptyString
  | String c t =>
      if c =? "&" then (r ++ replace_amp r t)%string
      else String c (replace_amp r t)
  end.

(** [s.replace(/&&|&/g, m => m === '&' ? '&&' : '&')]. *)
Fixpoint swap_amp (s : string) : string :=
  match s with
  | EmptyString => EmptyString
  | String c0 t0 =>
      if c0 =? "&" then
        match t0 with
        | String c1 t1 =>
            if c1 =? "&" then String "&" (swap_amp t1)
            else String "&" (String "&" (swap_amp t0))
        | EmptyString => String "&" (String "&" (swap_amp t0))
        end
      else String c0 (swap_amp t0)
  end.

Local Close Scope char_scope.

(** An optional boolean parameter, left out or given. *)
Definition truthy_opt (b : option bool) : bool :=
  match b with
  | Some true => true
  | _ => false
  end.

Definition mnemonicMenuLabel (isMacintosh : bool) (label : string)
    (forceDisableMnemonics : option bool) : string :=
  if isMacintosh || truthy_opt forceDisableMnemonics then
    replace_amp (if isMacintosh then "&" else "&&")%string (strip_mnemonics label)
  else swap_amp label.

(* ================================================================== *)
(** ** Menu description and action tree *)

(** A reference to a click handler; the build stores it and never calls it. *)
Definition Handler : Type := nat.

(** Electron's [MenuItem] and [Menu], with the fields [updateMenu] reads. *)
Inductive MenuItem : Type :=
  mkMenuItem (id label : string) (enabled checked : bool) (toolTip : string)
             (click : Handler) (submenu : option Menu)
with Menu : Type :=
  mkMenu (items : list MenuItem).

Definition id (i : MenuItem) : string := let (x, _, _, _, _, _, _) := i in x.
Definition label (i : MenuItem) : string := let (_, x, _, _, _, _, _) := i in x.
Definition enabled (i : MenuItem) : bool := let (_, _, x, _, _, _, _) := i in x.
Definition checked (i : MenuItem) : bool := let (_, _, _, x, _, _, _) := i in x.
Definition toolTip (i : MenuItem) : string := let (_, _, _, _, x, _, _) := i in x.
Definition click (i : MenuItem) : Handler := let (_, _, _, _, _, x, _) := i in x.
Definition submenu (i : MenuItem) : option Menu := let (_, _, _, _, _, _, x) := i in x.
Definition items (m : Menu) : list MenuItem := let (x) := m in x.

(** [IAction]: an [Action] (with the tooltip and checked state assigned
    after construction) or a [SubmenuAction]. *)
Inductive IAction : Type :=
  | Action (id label cssClass : string) (enabled : bool) (actionCallback : Handler)
           (tooltip : string) (checked : bool)
  | SubmenuAction (id label : string) (actions : list IAction).

(** Array operations used on [target]. *)
Definition splice0 {A} (target : list A) : list A := [].
Definition push {A} (target : list A) (x : A) : list A := target ++ [x].
Definition pop {A} (target : list A) : list A := removelast target.

Section Titlebar.

(** The platform constant of vs/base/common/platform. *)
Variable isMacintosh : bool.

(** [updateActions(menu, target, topLevelTitle)]; the result is the
    content of [target] when the call returns. *)
Fixpoint updateActions (menu : Menu) (target : list IAction) (topLevelTitle : string)
  {struct menu} : list IAction :=
  let target := splice0 target in
  let actions := items menu in
  let target :=
    fold_left
      (fun target action =>
         match submenu action with
         | Some submenu =>
             let submenuActions := updateActions submenu [] topLevelTitle in
             if (0 <? Z.of_nat (List.length submenuActions)) then
               push target
                 (SubmenuAction EmptyString (mnemonicMenuLabel isMacintosh (label action) None)
                                submenuActions)
             else target
         | None =>
             let newAction :=
               Action (id action) (mnemonicMenuLabel isMacintosh (label action) None)
                      EmptyString (enabled action) (click action)
                      (toolTip action) (checked action) in
             push target newAction
         end)
      actions target in
  pop target.

(** What the titlebar asks of its [MenuBar]. *)
Record MenuBarMenu : Type := mkMenuBarMenu {
  actions : list IAction;
  menu_label : string
}.

Inductive MenuBarCall : Type :=
  | MenuBar_dispose
  | MenuBar_new
  | MenuBar_update
  | MenuBar_updateMenu (m : MenuBarMenu)
  | MenuBar_push (m : MenuBarMenu).

(** The state [updateMenu] works on: whether [this._menubar] is set,
    [this._options.menu], and the calls made on menu bars so far. *)
Record TitlebarState : Type := mkTitlebarState {
  _menubar : bool;
  options_menu : option Menu;
  menubar_calls : list MenuBarCall
}.

Definition call (c : MenuBarCall) (st : TitlebarState) : TitlebarState :=
  mkTitlebarState (_menubar st) (options_menu st) (menubar_calls st ++ [c]).

(** [updateMenu(menu, firstTime)].  Listener registration and
    [_updateStyles] do not touch the state above and are left out. *)
Definition updateMenu (menu : Menu) (firstTime : bool) (st : TitlebarState)
  : TitlebarState :=
  if negb isMacintosh then
    let st := if _menubar st then call MenuBar_dispose st else st in
    let st := mkTitlebarState (_menubar st) (Some menu) (menubar_calls st) in
    let st :=
      if firstTime then
        call MenuBar_new (mkTitlebarState true (options_menu st) (menubar_calls st))
      else if _menubar st then call MenuBar_update st else st in
    fold_left
      (fun st item =>
         if _menubar st then
           let actions := updateActions menu [] (label item) in
           let entry :=
             mkMenuBarMenu actions (mnemonicMenuLabel isMacintosh (label item) None) in
           if negb firstTime then call (MenuBar_updateMenu entry) st
           else call (MenuBar_push entry) st
         else st)
      (items menu) st
  else st.

End Titlebar.

(* ================================================================== *)
(** ** One level of the action tree *)

(** What one turn of the loop of [updateActions] pushes for [action]: a
    [SubmenuAction] when the item has a submenu whose own build is not
    empty, nothing when that build is empty, an [Action] when the item has
    no submenu. *)
Definition constructed (isMacintosh : bool) (topLevelTitle : string) (action : MenuItem)
  : list IAction :=
  match submenu action with
  | Some sub =>
      let submenuActions := updateActions isMacintosh sub [] topLevelTitle in
      if 0 <? Z.of_nat (List.length submenuActions) then
        [SubmenuAction EmptyString (mnemonicMenuLabel isMacintosh (label action) None)
                       submenuActions]
      else []
  | None =>
      [Action (id action) (mnemonicMenuLabel isMacintosh (label action) None)
              EmptyString (enabled action) (click action) (toolTip action) (checked action)]
  end.

(** No [SubmenuAction] with an empty list of actions, at any depth. *)
Fixpoint no_empty_submenu (a : IAction) : bool :=
  match a with
  | Action _ _ _ _ _ _ _ => true
  | SubmenuAction _ _ actions =>
      negb (Nat.eqb (List.length actions) 0) && forallb no_empty_submenu actions
  end.

(** The entries handed to the menu bar by [push] or [updateMenu]. *)
Definition entry_of (c : MenuBarCall) : option MenuBarMenu :=
  match c with
  | MenuBar_updateMenu m | MenuBar_push m => Some m
  | _ => None
  end.

(** Sample menus. *)
Definition leaf (i l : string) : MenuItem := mkMenuItem i l true false EmptyString 0%nat None.

Definition parent (l : string) (children : list MenuItem) : MenuItem :=
  mkMenuItem EmptyString l true false EmptyString 0%nat (Some (mkMenu children)).

Definition file_menu : Menu := mkMenu [leaf "new" "New"; leaf "open" "Open"].

Definition edit_menu : Menu := mkMenu [leaf "undo" "Undo"; leaf "redo" "Redo"; leaf "cut" "Cut"].

Definition file_only : Menu := mkMenu [parent "File" (items file_menu)].

Definition file_edit : Menu :=
  mkMenu [parent "File" (items file_menu); parent "Edit" (items edit_menu)].

(* ================================================================== *)
(** ** Reading a label as segments

    A label read from the left falls into segments: a [(&&X)] group with
    [X] a word character, a pair [&&], a single [&], or any other
    character.  The regular expressions of [mnemonicMenuLabel] are stated
    against this reading. *)

Inductive Segment : Type :=
  | Chr (c : ascii)
  | Lone
  | Pair
  | Group (w : ascii).

Definition render_segment (g : Segment) : string :=
  match g with
  | Chr c => String c EmptyString
  | Lone => "&"
  | Pair => "&&"
  | Group w => String "(" (String "&" (String "&" (String w ")")))
  end.

(** The text a list of segments stands for, each segment written by [out]. *)
Fixpoint render_with (out : Segment -> string) (l : list Segment) : string :=
  match l with
  | [] => EmptyString
  | g :: r => out g ++ render_with out r
  end.

Definition render : list Segment -> string := render_with render_segment.

(** The rest of [s] after a leading [(&&X)] group, if [s] starts with one. *)
Definition group_rest (s : string) : option string :=
  match s with
  | String c0 (String c1 (String c2 (String c3 (String c4 r)))) =>
      if ((c0 =? "(") && (c1 =? "&") && (c2 =? "&") && is_word c3 && (c4 =? ")"))%char
      then Some r else None
  | _ => None
  end.

(** The rest of [s] after a leading [&&], if [s] starts with one. *)
Definition pair_rest (s : string) : option string :=
  match s with
  | String c0 (String c1 r) =>
      if ((c0 =? "&") && (c1 =? "&"))%char then Some r else None
  | _ => None
  end.

Definition starts_amp (s : string) : bool :=
  match s with
  | String c _ => (c =? "&")%char
  | EmptyString => false
  end.

Definition is_some {A} (o : option A) : bool :=
  match o with Some _ => true | None => false end.

(** A list of segments is the left-to-right reading of its text: a [Chr]
    is no [&] and does not open a group, a [Lone] is not followed by
    another [&], and the character of a [Group] is a word character. *)
Fixpoint segmented (l : list Segment) : bool :=
  match l with
  | [] => true
  | Chr c :: r =>
      negb (c =? "&")%char && negb (is_some (group_rest (String c (render r))))
      && segmented r
  | Lone :: r => negb (starts_amp (render r)) && segmented r
  | Pair :: r => segmented r
  | Group w :: r => is_word w && segmented r
  end.

(** The reading of a label, by a scan bounded by the length of the label. *)
Fixpoint segments_fuel (fuel : nat) (s : string) : list Segment :=
  match fuel with
  | O => []
  | S fuel =>
      match s with
      | EmptyString => []
      | String c t =>
          match group_rest s with
          | Some r =>
              match s with
              | String _ (String _ (String _ (String w _))) => Group w :: segments_fuel fuel r
              | _ => []
              end
          | None =>
              match pair_rest s with
              | Some r => Pair :: segments_fuel fuel r
              | None =>
                  if (c =? "&")%char then Lone :: segments_fuel fuel t
                  else Chr c :: segments_fuel fuel t
              end
          end
      end
  end.

Definition segments (s : string) : list Segment := segments_fuel (String.length s) s.

(** Does the label contain the character [&]? *)
Fixpoint has_amp (s : string) : bool :=
  match s with
  | EmptyString => false
  | String c t => (c =? "&")%char || has_amp t
  end.

(** What the enabled non-Macintosh transform writes for a segment: a pair
    becomes one [&], a single [&] becomes a pair. *)
Definition swapped_segment (g : Segment) : string :=
  match g with
  | Chr c => String c EmptyString
  | Lone => "&&"
  | Pair => "&"
  | Group w => String "(" (String "&" (String w ")"))
  end.

(** The non-Macintosh transform as the specification words it: a pair
    becomes one [&], a single [&] stays. *)
Definition spec_nonmac_segment (g : Segment) : string :=
  match g with
  | Chr c => String c EmptyString
  | Lone => "&"
  | Pair => "&"
  | Group w => String "(" (String "&" (String w ")"))
  end.

(** What the stripping transform writes for a segment: groups and pairs
    vanish, a single [&] is written in the form that shows a literal
    ampersand on the platform. *)
Definition stripped_segment (isMacintosh : bool) (g : Segment) : string :=
  match g with
  | Chr c => String c EmptyString
  | Lone => if isMacintosh then "&" else "&&"
  | Pair => EmptyString
  | Group w => EmptyString
  end.

(** What stays of a segment once groups and pairs are removed. *)
Definition kept_segment (g : Segment) : string :=
  match g with
  | Chr c => String c EmptyString
  | Lone => "&"
  | Pair => EmptyString
  | Group w => EmptyString
  end.

(* ================================================================== *)
(** ** Window icon size *)

(** The size [_setIconSize] settles on: 16 when the argument is left out,
    falsy or at most 16, at most 24 otherwise. *)
Definition icon_size (size : option Z) : Z :=
  let size :=
    match size with
    | Some z => if negb (truthy z) || (z <=? 16) then 16 else z
    | None => 16
    end in
  if 24 <=? size then 24 else size.

(** [_setIconSize(size)]: the [height] attribute given to the icon. *)
Definition _setIconSize (size : option Z) : string :=
  (SimpleKeybinding.number_to_string (icon_size size) ++ "px")%string.

(* ================================================================== *)
(** ** Class lists *)

(** [classList.contains], [classList.add] and [classList.remove]. *)
Definition classList_contains (c : string) (l : list string) : bool :=
  existsb (String.eqb c) l.

Definition classList_add (c : string) (l : list string) : list string :=
  if classList_contains c l then l else l ++ [c].

Definition classList_remove (c : string) (l : list string) : list string :=
  filter (fun x => negb (String.eqb c x)) l.

(* ================================================================== *)
(** ** Menu position, full screen and title alignment *)

Inductive MenuPosition : Type := MenuLeft | MenuRight | MenuBottom.

Definition MenuPosition_eqb (a b : MenuPosition) : bool :=
  match a, b with
  | MenuLeft, MenuLeft | MenuRight, MenuRight | MenuBottom, MenuBottom => true
  | _, _ => false
  end.

(** [this._options.menuPosition === p], the option being possibly unset. *)
Definition position_is (o : option MenuPosition) (p : MenuPosition) : bool :=
  match o with
  | Some q => MenuPosition_eqb q p
  | None => false
  end.

Inductive Side : Type := SideLeft | SideCenter | SideRight.

Inductive Order : Type := OrderDefault | OrderInverted | OrderFirstButtons.

Definition order_is (o : option Order) (x : Order) : bool :=
  match o, x with
  | Some OrderDefault, OrderDefault
  | Some OrderInverted, OrderInverted
  | Some OrderFirstButtons, OrderFirstButtons => true
  | _, _ => false
  end.

Definition Side_eqb (a b : Side) : bool :=
  match a, b with
  | SideLeft, SideLeft | SideCenter, SideCenter | SideRight, SideRight => true
  | _, _ => false
  end.

Definition BOTTOM_TITLEBAR_HEIGHT : string := "60px".
Definition TOP_TITLEBAR_HEIGHT_WIN : string := "30px".

(** The part of the page [updateMenuPosition] and [onWindowFullScreen]
    work on.  [hide] and [show] of vs/base/browser/dom are taken to switch
    the element between hidden and shown. *)
Record LayoutState : Type := mkLayoutState {
  titlebar_height : string;
  titlebar_hidden : bool;
  container_top : string;
  menubar_classes : list string;
  menuPosition : option MenuPosition
}.

(** The part of the page [updateTitleAlignment] works on; the centring
    listeners on the window's [resize] are counted. *)
Record TitleState : Type := mkTitleState {
  title_marginLeft : string;
  title_marginRight : string;
  title_maxWidth : string;
  controls_marginLeft : string;
  resize_listeners : nat
}.

Section Layout.

Variable isMacintosh : bool.

(** [parseInt(process.getSystemVersion().split(".")[0]) >= 11]. *)
Variable systemVersionAtLeast11 : bool.

Definition IS_MAC_BIGSUR_OR_LATER : bool := isMacintosh && systemVersionAtLeast11.

Definition TOP_TITLEBAR_HEIGHT_MAC : string :=
  if IS_MAC_BIGSUR_OR_LATER then "28px" else "22px".

Definition updateMenuPosition (p : MenuPosition) (st : LayoutState) : LayoutState :=
  let height := if isMacintosh then TOP_TITLEBAR_HEIGHT_MAC else TOP_TITLEBAR_HEIGHT_WIN in
  let h := if MenuPosition_eqb p MenuBottom then BOTTOM_TITLEBAR_HEIGHT else height in
  let classes :=
    if MenuPosition_eqb p MenuBottom then classList_add "bottom" (menubar_classes st)
    else if MenuPosition_eqb p MenuRight then classList_add "right" (menubar_classes st)
    else classList_remove "bottom" (classList_remove "right" (menubar_classes st)) in
  mkLayoutState h (titlebar_hidden st) h classes (Some p).

Definition onWindowFullScreen (fullscreen : bool) (st : LayoutState) : LayoutState :=
  if negb isMacintosh then
    if fullscreen then
      mkLayoutState (titlebar_height st) true "0px" (menubar_classes st) (menuPosition st)
    else
      mkLayoutState (titlebar_height st) false
        (if position_is (menuPosition st) MenuBottom then BOTTOM_TITLEBAR_HEIGHT
         else if isMacintosh then TOP_TITLEBAR_HEIGHT_MAC else TOP_TITLEBAR_HEIGHT_WIN)
        (menubar_classes st) (menuPosition st)
  else st.

(** [updateTitleAlignment(side)], with [this._options.order] and
    [this._options.menuPosition] as it finds them. *)
Definition updateTitleAlignment (order : option Order) (position : option MenuPosition)
    (side : Side) (st : TitleState) : TitleState :=
  let st :=
    if Side_eqb side SideLeft || (Side_eqb side SideRight && order_is order OrderInverted)
    then mkTitleState "8px" "auto" (title_maxWidth st) (controls_marginLeft st)
                      (resize_listeners st)
    else st in
  let st :=
    if Side_eqb side SideRight || (Side_eqb side SideLeft && order_is order OrderInverted)
    then mkTitleState "auto" "8px" (title_maxWidth st) (controls_marginLeft st)
                      (resize_listeners st)
    else st in
  if Side_eqb side SideCenter then
    let listeners :=
      if negb (position_is position MenuBottom) then S (resize_listeners st)
      else resize_listeners st in
    let controls :=
      if negb isMacintosh && negb (order_is order OrderFirstButtons) then "auto"%string
      else controls_marginLeft st in
    mkTitleState (title_marginLeft st) (title_marginRight st) "calc(100vw - 296px)"
                 controls listeners
  else st.

End Layout.

(* ================================================================== *)
(** ** Focus and colours

    [Color] is the class of vs/base/common/color; its operations are taken
    as parameters. *)

Section Styles.

Variable Color : Type.
Variable fromHex : string -> Color.
Variable lighten : Color -> Q -> Color.
Variable darken : Color -> Q -> Color.
Variable isLighter : Color -> bool.
Variable Color_equals : Color -> option Color -> bool.
Variable Color_toString : Color -> string.

(** [new Color(new RGBA(0, 0, 0, .12))]. *)
Variable black12 : Color.

Definition INACTIVE_FOREGROUND_DARK : Color := fromHex "#222222".
Definition ACTIVE_FOREGROUND_DARK : Color := fromHex "#333333".
Definition INACTIVE_FOREGROUND : Color := fromHex "#EEEEEE".
Definition ACTIVE_FOREGROUND : Color := fromHex "#FFFFFF".

(** The argument of [this._menubar.style]. *)
Record MenuBarStyles : Type := mkMenuBarStyles {
  backgroundColor : option Color;
  foregroundColor : Color;
  selectionBackgroundColor : Color;
  selectionForegroundColor : Color;
  separatorColor : Color
}.

Inductive StyleCall : Type :=
  | MenuBar_blur
  | MenuBar_style (s : MenuBarStyles).

(** The state the focus handlers and [_updateStyles] work on. *)
Record StyleState : Type := mkStyleState {
  titlebar_classes : list string;
  _isInactive : option bool;
  options_backgroundColor : option Color;
  options_itemBackgroundColor : option Color;
  style_backgroundColor : string;
  style_color : string;
  has_menubar : bool;
  style_calls : list StyleCall
}.

(** [c?.isLighter()] as a condition. *)
Definition isLighter_opt (c : option Color) : bool :=
  match c with
  | Some c => isLighter c
  | None => false
  end.

Definition _updateStyles (st : StyleState) : StyleState :=
  let inactive := truthy_opt (_isInactive st) in
  let classes :=
    if inactive then classList_add "inactive" (titlebar_classes st)
    else classList_remove "inactive" (titlebar_classes st) in
  let titleBackground :=
    if inactive then option_map (fun c => lighten c (15 # 100)%Q) (options_backgroundColor st)
    else options_backgroundColor st in
  let style_bg :=
    match titleBackground with
    | Some c => Color_toString c
    | None => style_backgroundColor st
    end in
  let classes := classList_add "light" classes in
  let titleForeground :=
    if isLighter_opt titleBackground then
      (if inactive then INACTIVE_FOREGROUND_DARK else ACTIVE_FOREGROUND_DARK)
    else
      (if inactive then INACTIVE_FOREGROUND else ACTIVE_FOREGROUND) in
  let backgroundColor :=
    option_map (fun c => darken c (16 # 100)%Q) (options_backgroundColor st) in
  let foregroundColor :=
    if isLighter_opt backgroundColor then INACTIVE_FOREGROUND_DARK
    else INACTIVE_FOREGROUND in
  let bgColor :=
    match options_itemBackgroundColor st with
    | None => black12
    | Some item => if Color_equals item backgroundColor then black12 else item
    end in
  let fgColor := if isLighter bgColor then ACTIVE_FOREGROUND_DARK else ACTIVE_FOREGROUND in
  mkStyleState classes (_isInactive st) (options_backgroundColor st)
    (options_itemBackgroundColor st) style_bg (Color_toString titleForeground)
    (has_menubar st)
    (if has_menubar st then
       style_calls st
       ++ [MenuBar_style
             (mkMenuBarStyles backgroundColor foregroundColor bgColor fgColor foregroundColor)]
     else style_calls st).

Definition set_isInactive (b : bool) (st : StyleState) : StyleState :=
  mkStyleState (titlebar_classes st) (Some b) (options_backgroundColor st)
    (options_itemBackgroundColor st) (style_backgroundColor st) (style_color st)
    (has_menubar st) (style_calls st).

Definition set_classes (l : list string) (st : StyleState) : StyleState :=
  mkStyleState l (_isInactive st) (options_backgroundColor st)
    (options_itemBackgroundColor st) (style_backgroundColor st) (style_color st)
    (has_menubar st) (style_calls st).

Definition _onBlur (st : StyleState) : StyleState := _updateStyles (set_isInactive true st).

Definition _onFocus (st : StyleState) : StyleState := _updateStyles (set_isInactive false st).

Definition _closeMenu (st : StyleState) : StyleState :=
  if has_menubar st then
    mkStyleState (titlebar_classes st) (_isInactive st) (options_backgroundColor st)
      (options_itemBackgroundColor st) (style_backgroundColor st) (style_color st)
      (has_menubar st) (style_calls st ++ [MenuBar_blur])
  else st.

(** [onWindowFocus(focus)]; [this._titlebar] is set by the constructor. *)
Definition onWindowFocus (focus : bool) (st : StyleState) : StyleState :=
  if focus then
    _onFocus (set_classes (classList_remove "inactive" (titlebar_classes st)) st)
  else
    _onBlur (_closeMenu (set_classes (classList_add "inactive" (titlebar_classes st)) st)).

Definition updateBackground (backgroundColor : Color) (st : StyleState) : StyleState :=
  _updateStyles
    (mkStyleState (titlebar_classes st) (_isInactive st) (Some backgroundColor)
       (options_itemBackgroundColor st) (style_backgroundColor st) (style_color st)
       (has_menubar st) (style_calls st)).

Definition updateItemBGColor (itemBGColor : Color) (st : StyleState) : StyleState :=
  _updateStyles
    (mkStyleState (titlebar_classes st) (_isInactive st) (options_backgroundColor st)
       (Some itemBGColor) (style_backgroundColor st) (style_color st)
       (has_menubar st) (style_calls st)).

(** A [meta] element: its [name] and [content]. *)
Definition MetaNode : Type := (string * string)%type.

(** The loop of [_loadBackgroundColor] over the [meta] elements, left at
    the first one named [theme-color] or [msapplication-TileColor]. *)
Fixpoint theme_color (nodeList : list MetaNode) (color : Color) : Color :=
  match nodeList with
  | [] => color
  | node :: rest =>
      if String.eqb (fst node) "theme-color"
         || String.eqb (fst node) "msapplication-TileColor"
      then fromHex (if String.eqb (snd node) EmptyString then "#ffffff"%string
                    else snd node)
      else theme_color rest color
  end.

(** [_loadBackgroundColor()]: the value of [this._options.backgroundColor]
    afterwards. *)
Definition _loadBackgroundColor (nodeList : list MetaNode)
    (configured : option Color) : option Color :=
  let color := fromHex "#ffffff" in
  match configured with
  | Some c => Some c
  | None => Some (theme_color nodeList color)
  end.

End Styles.

(** A meta element counts for the background colour. *)
Definition names_color (node : MetaNode) : bool :=
  String.eqb (fst node) "theme-color" || String.eqb (fst node) "msapplication-TileColor".

(* ================================================================== *)
(** ** Helpers for stating the properties *)

(** The characters of a label other than [&], in order. *)
Fixpoint without_amp (s : string) : string :=
  match s with
  | EmptyString => EmptyString
  | String c t => if (c =? "&")%char then without_amp t else String c (without_amp t)
  end.

(** The [Action] built for an item without submenu. *)
Definition action_of (isMacintosh : bool) (item : MenuItem) : IAction :=
  Action (id item) (mnemonicMenuLabel isMacintosh (label item) None) EmptyString
         (enabled item) (click item) (toolTip item) (checked item).

(** Colours as their hexadecimal notation, to run the definitions on. *)
Definition hex_isLighter (c : string) : bool := String.eqb c "#ffffff".

(** The packed number with the given key code and flags at bits 8 to 11. *)
Definition pack (keyCode : Z) (w a s c : bool) : Z :=
  keyCode + 256 * (Z.b2z w + 2 * Z.b2z a + 4 * Z.b2z s + 8 * Z.b2z c).

(* ================================================================== *)
(** * Properties *)

(** ** Bit-level facts about the JavaScript primitives *)

Lemma ToInt32_mod (z : Z) : ToInt32 z mod 2 ^ 32 = z mod 2 ^ 32.
Proof.
  unfold ToInt32.
  rewrite Zminus_mod_idemp_l.
  f_equal. lia.
Qed.

Lemma testbit_ToInt32 (z : Z) (k : Z) :
  0 <= k < 32 -> Z.testbit (ToInt32 z) k = Z.testbit z k.
Proof.
  intros Hk.
  rewrite <- (Z.mod_pow2_bits_low (ToInt32 z) 32 k) by lia.
  rewrite <- (Z.mod_pow2_bits_low z 32 k) by lia.
  now rewrite ToInt32_mod.
Qed.

Lemma land_pow2_truthy (a k : Z) :
  0 <= k -> truthy (Z.land a (2 ^ k)) = Z.testbit a k.
Proof.
  intros Hk. unfold truthy.
  destruct (Z.testbit a k) eqn:Hb.
  - apply negb_true_iff, Z.eqb_neq. intros H0.
    assert (Hk' : Z.testbit (Z.land a (2 ^ k)) k = true).
    { rewrite Z.land_spec, Hb, Z.pow2_bits_true by lia. reflexivity. }
    rewrite H0, Z.bits_0 in Hk'. discriminate.
  - apply negb_false_iff, Z.eqb_eq.
    apply Z.bits_inj'. intros n Hn.
    rewrite Z.land_spec, Z.bits_0, Z.pow2_bits_eqb by lia.
    destruct (Z.eqb_spec k n) as [->|_].
    + now rewrite Hb.
    + apply andb_false_r.
Qed.

Lemma mask_values :
  BinaryKeybindingsMask.CtrlCmd = 2 ^ 11
  /\ BinaryKeybindingsMask.Shift = 2 ^ 10
  /\ BinaryKeybindingsMask.Alt = 2 ^ 9
  /\ BinaryKeybindingsMask.WinCtrl = 2 ^ 8.
Proof. repeat split. Qed.

Lemma ToInt32_small (z : Z) : - 2 ^ 31 <= z < 2 ^ 31 -> ToInt32 z = z.
Proof.
  intros Hz. unfold ToInt32.
  rewrite Z.mod_small by lia. lia.
Qed.

(** [keybinding & (1 << k)] is truthy exactly when bit [k] of the number is set. *)
Lemma js_and_flag (p k : Z) :
  0 <= k < 31 -> truthy (js_and p (2 ^ k)) = Z.testbit p k.
Proof.
  intros Hk. unfold js_and.
  rewrite (ToInt32_small (2 ^ k)).
  - rewrite land_pow2_truthy by lia. apply testbit_ToInt32. lia.
  - split.
    + pose proof (Z.pow_pos_nonneg 2 k). lia.
    + apply Z.pow_lt_mono_r; lia.
Qed.

(** [keybinding & 0xFF] is the number modulo 256. *)
Lemma js_and_keyCode (p : Z) : js_and p BinaryKeybindingsMask.KeyCode = p mod 256.
Proof.
  unfold js_and, BinaryKeybindingsMask.KeyCode.
  rewrite (ToInt32_small 255) by lia.
  change 255 with (Z.ones 8).
  rewrite Z.land_ones by lia.
  change (2 ^ 8) with 256.
  assert (Hd : (256 | 2 ^ 32)) by (exists (2 ^ 24); reflexivity).
  rewrite <- (Z.mod_mod_divide (ToInt32 p) (2 ^ 32) 256 Hd).
  rewrite ToInt32_mod.
  now apply Z.mod_mod_divide.
Qed.

Lemma createSimpleKeybinding_fields (p : Z) (os : OperatingSystem) :
  createSimpleKeybinding p os =
  SimpleKeybinding.new
    (if OperatingSystem_eqb os Macintosh then Z.testbit p 8 else Z.testbit p 11)
    (Z.testbit p 10) (Z.testbit p 9)
    (if OperatingSystem_eqb os Macintosh then Z.testbit p 11 else Z.testbit p 8)
    (p mod 256).
Proof.
  unfold createSimpleKeybinding.
  destruct mask_values as (-> & -> & -> & ->).
  rewrite !js_and_flag by lia.
  now rewrite js_and_keyCode.
Qed.

(** ** KeyEncoding *)

(** C1.  Decoding is a total function of the packed integer and the OS (one
    and only one keybinding is the result), for every integer and so for
    every 12-bit one.  The modifiers obey the swap invariant between
    Macintosh and each of the other two OS values: [ctrlKey] on one is
    [metaKey] on the other, both ways.  [shiftKey] is bit 10 and [altKey]
    is bit 9 whatever the OS, and [keyCode] is the low 8 bits. *)
Theorem decode_swap_invariant (p : Z) :
  (forall os, exists! kb, createSimpleKeybinding p os = kb)
  /\ (SimpleKeybinding.ctrlKey (createSimpleKeybinding p Macintosh)
      = SimpleKeybinding.metaKey (createSimpleKeybinding p Windows)
      /\ SimpleKeybinding.metaKey (createSimpleKeybinding p Macintosh)
         = SimpleKeybinding.ctrlKey (createSimpleKeybinding p Windows))
  /\ (SimpleKeybinding.ctrlKey (createSimpleKeybinding p Macintosh)
      = SimpleKeybinding.metaKey (createSimpleKeybinding p Linux)
      /\ SimpleKeybinding.metaKey (createSimpleKeybinding p Macintosh)
         = SimpleKeybinding.ctrlKey (createSimpleKeybinding p Linux))
  /\ (forall os,
        SimpleKeybinding.shiftKey (createSimpleKeybinding p os) = Z.testbit p 10
        /\ SimpleKeybinding.altKey (createSimpleKeybinding p os) = Z.testbit p 9
        /\ SimpleKeybinding.keyCode (createSimpleKeybinding p os) = p mod 2 ^ 8
        /\ 0 <= SimpleKeybinding.keyCode (createSimpleKeybinding p os) < 2 ^ 8).
Proof.
  split; [| split; [| split]].
  - intros os. exists (createSimpleKeybinding p os). split; [reflexivity |].
    intros kb Hkb. exact Hkb.
  - rewrite !createSimpleKeybinding_fields. split; reflexivity.
  - rewrite !createSimpleKeybinding_fields. split; reflexivity.
  - intros os. rewrite createSimpleKeybinding_fields. simpl.
    repeat split; apply Z.mod_pos_bound; reflexivity.
Qed.

(** C4, as stated, fails: [0b000100000001] has bit 8 set, the winCtrl flag,
    so off Macintosh it is [metaKey] that is set, and on Macintosh
    [ctrlKey]. *)
Lemma decode_scenario_as_stated_fails :
  createSimpleKeybinding (binary [0;0;0;1;0;0;0;0;0;0;0;1]) Windows
    <> SimpleKeybinding.new true false false false 1
  /\ createSimpleKeybinding (binary [0;0;0;1;0;0;0;0;0;0;0;1]) Macintosh
    <> SimpleKeybinding.new false false false true 1.
Proof. split; vm_compute; discriminate. Qed.

(** C4, amended.  [0b000100000001] (winCtrl flag, key code 1) decodes to
    [metaKey] alone off Macintosh and to [ctrlKey] alone on Macintosh; the
    results the scenario lists are those of [0b100000000001], the value
    with the ctrlCmd flag (bit 11) and key code 1. *)
Theorem decode_scenario :
  let winCtrl1 := binary [0;0;0;1;0;0;0;0;0;0;0;1] in
  let ctrlCmd1 := binary [1;0;0;0;0;0;0;0;0;0;0;1] in
  createSimpleKeybinding winCtrl1 Windows = SimpleKeybinding.new false false false true 1
  /\ createSimpleKeybinding winCtrl1 Linux = SimpleKeybinding.new false false false true 1
  /\ createSimpleKeybinding winCtrl1 Macintosh = SimpleKeybinding.new true false false false 1
  /\ createSimpleKeybinding ctrlCmd1 Windows = SimpleKeybinding.new true false false false 1
  /\ createSimpleKeybinding ctrlCmd1 Linux = SimpleKeybinding.new true false false false 1
  /\ createSimpleKeybinding ctrlCmd1 Macintosh = SimpleKeybinding.new false false false true 1.
Proof. repeat split. Qed.

(** ** Duplicate modifiers *)

Section DuplicateModifier.
Context {KC : KeyCodeEnum} {SC : ScanCodeEnum}.

Lemma simple_duplicate_iff (kb : SimpleKeybinding.t) :
  SimpleKeybinding.isDuplicateModifierCase kb = true
  <-> exists m, SimpleKeybinding.flag m kb = true
                /\ SimpleKeybinding.keyCode kb = SimpleKeybinding.code_of m.
Proof.
  unfold SimpleKeybinding.isDuplicateModifierCase.
  rewrite !orb_true_iff, !andb_true_iff, !Z.eqb_eq.
  split.
  - intros [[[H|H]|H]|H];
      [exists ModCtrl | exists ModShift | exists ModAlt | exists ModMeta]; exact H.
  - intros [[] H]; simpl in H; tauto.
Qed.

Lemma scan_duplicate_iff (sb : ScanCodeBinding.t) :
  ScanCodeBinding.isDuplicateModifierCase sb = true
  <-> exists m, ScanCodeBinding.flag m sb = true
                /\ (ScanCodeBinding.scanCode sb = fst (ScanCodeBinding.codes_of m)
                    \/ ScanCodeBinding.scanCode sb = snd (ScanCodeBinding.codes_of m)).
Proof.
  unfold ScanCodeBinding.isDuplicateModifierCase.
  rewrite !orb_true_iff, !andb_true_iff, !orb_true_iff, !Z.eqb_eq.
  split.
  - intros [[[H|H]|H]|H];
      [exists ModCtrl | exists ModShift | exists ModAlt | exists ModMeta]; exact H.
  - intros [[] H]; simpl in H; tauto.
Qed.

(** C7.  [isDuplicateModifierCase] is true exactly when some modifier has
    its flag set and the code field names that modifier: the modifier's
    key code for a [SimpleKeybinding], its left or right scan code for a
    [ScanCodeBinding].  With [ctrlKey] set, key code [Ctrl] gives true;
    key code [KeyA], an enum member other than the four modifier codes,
    gives false when no other flag is set, whatever the flags when it
    differs from all four. *)
Theorem isDuplicateModifierCase_iff
  (HKeyA : forall m, KeyCode_KeyA <> SimpleKeybinding.code_of m) :
  (forall kb, SimpleKeybinding.isDuplicateModifierCase kb = true
      <-> exists m, SimpleKeybinding.flag m kb = true
                    /\ SimpleKeybinding.keyCode kb = SimpleKeybinding.code_of m)
  /\ (forall sb, ScanCodeBinding.isDuplicateModifierCase sb = true
      <-> exists m, ScanCodeBinding.flag m sb = true
                    /\ (ScanCodeBinding.scanCode sb = fst (ScanCodeBinding.codes_of m)
                        \/ ScanCodeBinding.scanCode sb = snd (ScanCodeBinding.codes_of m)))
  /\ (forall shift alt meta,
        SimpleKeybinding.isDuplicateModifierCase
          (SimpleKeybinding.new true shift alt meta KeyCode_Ctrl) = true)
  /\ (forall ctrl shift alt meta,
        SimpleKeybinding.isDuplicateModifierCase
          (SimpleKeybinding.new ctrl shift alt meta KeyCode_KeyA) = false).
Proof.
  split; [exact simple_duplicate_iff | split; [exact scan_duplicate_iff | split]].
  - intros. apply simple_duplicate_iff. exists ModCtrl. split; reflexivity.
  - intros. apply not_true_is_false. intros H.
    apply simple_duplicate_iff in H. destruct H as (m & _ & Hm).
    exact (HKeyA m Hm).
Qed.

End DuplicateModifier.

Lemma isDuplicateModifierCase_iff_witness :
  (forall m, @KeyCode_KeyA sample_KeyCode <> @SimpleKeybinding.code_of sample_KeyCode m)
  /\ @SimpleKeybinding.isDuplicateModifierCase sample_KeyCode
       (SimpleKeybinding.new true false false false 5) = true
  /\ @SimpleKeybinding.isDuplicateModifierCase sample_KeyCode
       (SimpleKeybinding.new true false false false 31) = false.
Proof.
  assert (H : forall m, @KeyCode_KeyA sample_KeyCode
                        <> @SimpleKeybinding.code_of sample_KeyCode m).
  { intros m; destruct m; simpl; lia. }
  split; [exact H|].
  pose proof (@isDuplicateModifierCase_iff sample_KeyCode sample_ScanCode H)
    as (_ & _ & Hctrl & Ha).
  split; [apply (Hctrl false false false) | apply (Ha true false false false)].
Defined.

(** ** Equality and hash of a [SimpleKeybinding] *)

Lemma equals_fields (a b : SimpleKeybinding.t) :
  SimpleKeybinding.equals a b = true
  <-> SimpleKeybinding.ctrlKey a = SimpleKeybinding.ctrlKey b
      /\ SimpleKeybinding.shiftKey a = SimpleKeybinding.shiftKey b
      /\ SimpleKeybinding.altKey a = SimpleKeybinding.altKey b
      /\ SimpleKeybinding.metaKey a = SimpleKeybinding.metaKey b
      /\ SimpleKeybinding.keyCode a = SimpleKeybinding.keyCode b.
Proof.
  unfold SimpleKeybinding.equals.
  rewrite !andb_true_iff, !eqb_true_iff, Z.eqb_eq. tauto.
Qed.

Lemma equals_eq (a b : SimpleKeybinding.t) :
  SimpleKeybinding.equals a b = true <-> a = b.
Proof.
  rewrite equals_fields. split.
  - destruct a, b; simpl. intros (-> & -> & -> & -> & ->). reflexivity.
  - intros ->. repeat split.
Qed.

Lemma to_int_proper (z : Z) :
  Z.to_int z <> Decimal.Pos Decimal.Nil /\ Z.to_int z <> Decimal.Neg Decimal.Nil.
Proof.
  destruct z; simpl; split; try discriminate;
    intros [= H]; exact (DecimalPos.Unsigned.to_uint_nonnil _ H).
Qed.

Lemma number_to_string_inj (x y : Z) :
  SimpleKeybinding.number_to_string x = SimpleKeybinding.number_to_string y -> x = y.
Proof.
  unfold SimpleKeybinding.number_to_string. intros H.
  apply DecimalZ.to_int_inj.
  destruct (to_int_proper x) as [Hx1 Hx2], (to_int_proper y) as [Hy1 Hy2].
  pose proof (NilZero.isi _ Hx1 Hx2) as Ex.
  pose proof (NilZero.isi _ Hy1 Hy2) as Ey.
  rewrite H in Ex. rewrite Ex in Ey. now injection Ey.
Qed.

Lemma getHashCode_inj (a b : SimpleKeybinding.t) :
  SimpleKeybinding.getHashCode a = SimpleKeybinding.getHashCode b -> a = b.
Proof.
  destruct a as [c s al m k], b as [c' s' al' m' k'].
  unfold SimpleKeybinding.getHashCode; simpl.
  intros H.
  assert (Hk : c = c' /\ s = s' /\ al = al' /\ m = m'
               /\ SimpleKeybinding.number_to_string k
                  = SimpleKeybinding.number_to_string k').
  { destruct c, c', s, s', al, al', m, m'; simpl in H;
      first [ discriminate H | injection H as H; repeat split; exact H ]. }
  destruct Hk as (-> & -> & -> & -> & Hn).
  now rewrite (number_to_string_inj _ _ Hn).
Qed.

(** C8.  [equals] is reflexive and symmetric, holds exactly when the five
    fields are pairwise equal, and two keybindings have the same hash code
    exactly when they are [equals]. *)
Theorem equals_hash_agree :
  (forall a, SimpleKeybinding.equals a a = true)
  /\ (forall a b, SimpleKeybinding.equals a b = SimpleKeybinding.equals b a)
  /\ (forall a b,
        SimpleKeybinding.equals a b = true
        <-> SimpleKeybinding.ctrlKey a = SimpleKeybinding.ctrlKey b
            /\ SimpleKeybinding.shiftKey a = SimpleKeybinding.shiftKey b
            /\ SimpleKeybinding.altKey a = SimpleKeybinding.altKey b
            /\ SimpleKeybinding.metaKey a = SimpleKeybinding.metaKey b
            /\ SimpleKeybinding.keyCode a = SimpleKeybinding.keyCode b)
  /\ (forall a b,
        SimpleKeybinding.getHashCode a = SimpleKeybinding.getHashCode b
        <-> SimpleKeybinding.equals a b = true).
Proof.
  split; [|split; [|split]].
  - intros a. now apply equals_eq.
  - intros a b.
    destruct (SimpleKeybinding.equals a b) eqn:Hab,
             (SimpleKeybinding.equals b a) eqn:Hba; try reflexivity.
    + apply equals_eq in Hab. subst b.
      assert (SimpleKeybinding.equals a a = true) by now apply equals_eq.
      congruence.
    + apply equals_eq in Hba. subst b.
      assert (SimpleKeybinding.equals a a = true) by now apply equals_eq.
      congruence.
  - exact equals_fields.
  - intros a b. rewrite equals_eq. split.
    + apply getHashCode_inj.
    + now intros ->.
Qed.

(** ** MenuActionTree *)

Lemma fold_left_push {A B} (f : A -> list B) (l : list A) (acc : list B) :
  fold_left (fun acc x => acc ++ f x) l acc = acc ++ flat_map f l.
Proof.
  revert acc. induction l as [|x l IH]; intros acc; simpl.
  - now rewrite app_nil_r.
  - rewrite IH. now rewrite app_assoc.
Qed.

Lemma fold_left_pointwise {A B} (f g : A -> B -> A) (l : list B) (a : A) :
  (forall a x, f a x = g a x) -> fold_left f l a = fold_left g l a.
Proof.
  intros H. revert a. induction l as [|x l IH]; intros a; simpl.
  - reflexivity.
  - now rewrite H, IH.
Qed.

(** The loop pushes what [constructed] says, item after item, and the
    closing [pop] takes the last one off. *)
Lemma updateActions_eq (isMac : bool) (menu : Menu) (target : list IAction)
    (title : string) :
  updateActions isMac menu target title
  = removelast (flat_map (constructed isMac title) (items menu)).
Proof.
  destruct menu as [its]. simpl.
  unfold pop, splice0. f_equal.
  rewrite <- (app_nil_l (flat_map _ _)).
  rewrite <- fold_left_push.
  apply fold_left_pointwise.
  intros acc action. unfold constructed, push.
  destruct (submenu action) as [sub|].
  - cbv zeta. destruct (0 <? _).
    + reflexivity.
    + now rewrite app_nil_r.
  - reflexivity.
Qed.

Lemma flat_map_singletons {A B} (f : A -> list B) (l : list A) :
  (forall x, In x l -> exists b, f x = [b]) ->
  List.length (flat_map f l) = List.length l.
Proof.
  induction l as [|x l IH]; intros H; simpl.
  - reflexivity.
  - destruct (H x (or_introl eq_refl)) as [b ->]. simpl.
    f_equal. apply IH. intros y Hy. apply H. now right.
Qed.

Lemma length_removelast {A} (l : list A) :
  List.length (removelast l) = (List.length l - 1)%nat.
Proof.
  induction l as [|x [|y l] IH]; simpl in *; try reflexivity.
  rewrite IH. lia.
Qed.

(** C3.  At every level the build returns the actions constructed for the
    items of that level without the last one: the list before the closing
    [pop], cut by one at the end.  The actions of a [SubmenuAction] are the
    build of the submenu, so the same holds one level down.  A level whose
    [n] items each produce an action returns [n - 1] actions (and none
    when there is no item). *)
Theorem trailing_action_dropped (isMac : bool) (menu : Menu) (target : list IAction)
    (title : string) :
  let built := flat_map (constructed isMac title) (items menu) in
  updateActions isMac menu target title = removelast built
  /\ (forall init last, built = init ++ [last] ->
        updateActions isMac menu target title = init)
  /\ (forall item sub a, In item (items menu) -> submenu item = Some sub ->
        In a (constructed isMac title item) ->
        exists l, a = SubmenuAction EmptyString l
                        (removelast (flat_map (constructed isMac title) (items sub))))
  /\ ((forall item, In item (items menu) -> exists a, constructed isMac title item = [a]) ->
      List.length (updateActions isMac menu target title)
      = (List.length (items menu) - 1)%nat).
Proof.
  intros built. rewrite updateActions_eq. fold built.
  split; [reflexivity | split; [| split]].
  - intros init last ->. apply removelast_last.
  - intros item sub a _ Hsub Ha. unfold constructed in Ha. rewrite Hsub in Ha.
    cbv zeta in Ha. destruct (0 <? _) in Ha; [| destruct Ha].
    destruct Ha as [<- | []]. rewrite updateActions_eq. eexists. reflexivity.
  - intros Hall. rewrite length_removelast. unfold built.
    now rewrite flat_map_singletons.
Qed.

Lemma trailing_action_dropped_witness :
  (forall item, In item (items edit_menu) ->
     exists a, constructed false "Edit" item = [a])
  /\ updateActions false edit_menu [] "Edit"
     = [Action "undo" "Undo" EmptyString true 0%nat EmptyString false;
        Action "redo" "Redo" EmptyString true 0%nat EmptyString false]
  /\ List.length (updateActions false edit_menu [] "Edit") = 2%nat.
Proof.
  assert (H : forall item, In item (items edit_menu) ->
                exists a, constructed false "Edit" item = [a]).
  { intros item [<- | [<- | [<- | []]]]; eexists; reflexivity. }
  split; [exact H | split; [reflexivity |]].
  exact (proj2 (proj2 (proj2 (trailing_action_dropped false edit_menu [] "Edit"))) H).
Defined.

(** Induction on menus: a property holds of a menu when it holds of the
    submenu of each of its items. *)
Lemma Menu_induction (P : Menu -> Prop) :
  (forall its,
      (forall item sub, In item its -> submenu item = Some sub -> P sub) ->
      P (mkMenu its)) ->
  forall m, P m.
Proof.
  intros H. fix IH 1. intros [its]. apply H.
  revert its. fix IHl 1. intros [|it r] item sub Hin Hsub.
  - destruct Hin.
  - destruct Hin as [<- | Hin].
    + destruct it as [? ? ? ? ? ? [s|]]; simpl in Hsub.
      * injection Hsub as <-. apply IH.
      * discriminate.
    + exact (IHl r item sub Hin Hsub).
Qed.

Lemma forallb_removelast {A} (f : A -> bool) (l : list A) :
  forallb f l = true -> forallb f (removelast l) = true.
Proof.
  induction l as [|x [|y l] IH]; simpl in *; try reflexivity.
  intros H. apply andb_true_iff in H as [Hx H].
  rewrite Hx. simpl. apply IH. exact H.
Qed.

(** X21.  No build ever holds a [SubmenuAction] without actions, at any depth:
    an item whose submenu builds to nothing is left out. *)
Lemma no_empty_submenu_emitted (isMac : bool) (title : string) (menu : Menu)
    (target : list IAction) :
  forallb no_empty_submenu (updateActions isMac menu target title) = true.
Proof.
  revert target. induction menu as [its IH] using Menu_induction. intros target.
  rewrite updateActions_eq. apply forallb_removelast. simpl items.
  apply forallb_forall. intros a Ha.
  apply in_flat_map in Ha as (item & Hin & Ha).
  unfold constructed in Ha.
  destruct (submenu item) as [sub|] eqn:Hsub.
  - cbv zeta in Ha.
    destruct (0 <? Z.of_nat (List.length (updateActions isMac sub [] title))) eqn:Hlen;
      [| destruct Ha].
    destruct Ha as [<- | []]. simpl.
    rewrite (IH item sub Hin Hsub). rewrite andb_true_r.
    apply negb_true_iff, Nat.eqb_neq. apply Z.ltb_lt in Hlen. lia.
  - destruct Ha as [<- | []]. reflexivity.
Qed.

(** C2, on the code.  The submenu of "File" (New, Open) builds to one
    action, and so does the submenu of "Edit"; yet the build of a menu
    whose only item is "File" is empty, and the build of the menu
    File, Edit holds the [SubmenuAction] of "File" alone: the last
    [SubmenuAction] of a level is pushed and then popped. *)
Theorem nonempty_submenu_dropped :
  updateActions false file_menu [] "File" = [Action "new" "New" EmptyString true 0%nat EmptyString false]
  /\ constructed false "File" (parent "File" (items file_menu))
     = [SubmenuAction EmptyString "File" [Action "new" "New" EmptyString true 0%nat EmptyString false]]
  /\ updateActions false file_only [] "File" = []
  /\ List.length (updateActions false edit_menu [] "File") = 2%nat
  /\ updateActions false file_edit [] "File"
     = [SubmenuAction EmptyString "File" [Action "new" "New" EmptyString true 0%nat EmptyString false]].
Proof. repeat split. Qed.

(** ** Top-level loop of [updateMenu] *)

Lemma flat_map_pointwise {A B} (f g : A -> list B) (l : list A) :
  (forall x, In x l -> f x = g x) -> flat_map f l = flat_map g l.
Proof.
  induction l as [|x l IH]; intros H; simpl.
  - reflexivity.
  - rewrite (H x (or_introl eq_refl)). f_equal.
    apply IH. intros y Hy. apply H. now right.
Qed.

(** The build does not read [topLevelTitle] nor the former content of
    [target]. *)
Lemma updateActions_irrelevant (isMac : bool) (menu : Menu) :
  forall target1 target2 title1 title2,
    updateActions isMac menu target1 title1 = updateActions isMac menu target2 title2.
Proof.
  induction menu as [its IH] using Menu_induction. intros t1 t2 title1 title2.
  rewrite !updateActions_eq. f_equal. simpl items.
  apply flat_map_pointwise. intros item Hin. unfold constructed.
  destruct (submenu item) as [sub|] eqn:Hsub; [| reflexivity].
  now rewrite (IH item sub Hin Hsub [] [] title1 title2).
Qed.

Lemma loop_with_menubar (C : MenuItem -> MenuBarCall) (l : list MenuItem)
    (st : TitlebarState) :
  _menubar st = true ->
  fold_left (fun st item => if _menubar st then call (C item) st else st) l st
  = mkTitlebarState true (options_menu st) (menubar_calls st ++ map C l).
Proof.
  revert st. induction l as [|item l IH]; intros st Hm; simpl.
  - rewrite app_nil_r. destruct st; simpl in *. now subst.
  - rewrite Hm. rewrite IH by exact Hm. simpl.
    now rewrite <- app_assoc.
Qed.

Lemma loop_without_menubar (C : MenuItem -> MenuBarCall) (l : list MenuItem)
    (st : TitlebarState) :
  _menubar st = false ->
  fold_left (fun st item => if _menubar st then call (C item) st else st) l st = st.
Proof.
  revert st. induction l as [|item l IH]; intros st Hm; simpl.
  - reflexivity.
  - rewrite Hm. now apply IH.
Qed.

(** C9.  Off Macintosh, [updateMenu] first disposes of a present menu bar
    and creates one (first time) or updates the present one; then, when
    there is a menu bar, it hands over one entry per top-level item, in
    order, by [push] the first time and by [updateMenu] otherwise.  The
    actions of every entry are the build of the whole root menu, the same
    list for all entries, and not the build of the item's own submenu: for
    the menu File, Edit both entries carry the one-element build of the
    root, while the submenu of "Edit" builds to two actions. *)
Theorem top_level_entries_share_root_build (menu : Menu) (firstTime : bool)
    (st : TitlebarState) :
  let whole := updateActions false menu [] EmptyString in
  let entry item :=
    mkMenuBarMenu whole (mnemonicMenuLabel false (label item) None) in
  let how := if firstTime then MenuBar_push else MenuBar_updateMenu in
  let added :=
    (if _menubar st then [MenuBar_dispose] else [])
    ++ (if firstTime then [MenuBar_new] else if _menubar st then [MenuBar_update] else [])
    ++ (if firstTime || _menubar st then map (fun item => how (entry item)) (items menu)
        else []) in
  menubar_calls (updateMenu false menu firstTime st) = menubar_calls st ++ added
  /\ (forall c m, In c added -> entry_of c = Some m -> actions m = whole)
  /\ (let root_build :=
        [SubmenuAction EmptyString "File" [Action "new" "New" EmptyString true 0%nat EmptyString false]] in
      menubar_calls (updateMenu false file_edit true (mkTitlebarState false None []))
      = [MenuBar_new;
         MenuBar_push (mkMenuBarMenu root_build "File");
         MenuBar_push (mkMenuBarMenu root_build "Edit")]
      /\ List.length (updateActions false edit_menu [] "Edit") = 2%nat).
Proof.
  intros whole entry how added.
  split; [| split].
  - unfold updateMenu. simpl negb. cbv iota.
    rewrite (fold_left_pointwise _
               (fun st item => if _menubar st then call (how (entry item)) st else st)).
    2:{ intros a item. destruct (_menubar a); [| reflexivity].
        unfold how, entry, whole.
        rewrite (updateActions_irrelevant false menu [] [] (label item) EmptyString).
        destruct firstTime; reflexivity. }
    unfold added.
    destruct st as [mb om calls]. destruct mb, firstTime; simpl;
      first [ rewrite loop_with_menubar by reflexivity
            | rewrite loop_without_menubar by reflexivity ];
      simpl; rewrite <- ?app_assoc; simpl; try reflexivity.
    now rewrite app_nil_r.
  - intros c m Hin Hc. unfold added in Hin.
    apply in_app_or in Hin as [Hin | Hin].
    { destruct (_menubar st); [destruct Hin as [<- | []]; discriminate | destruct Hin]. }
    apply in_app_or in Hin as [Hin | Hin].
    { destruct firstTime; [destruct Hin as [<- | []]; discriminate |].
      destruct (_menubar st); [destruct Hin as [<- | []]; discriminate | destruct Hin]. }
    destruct (firstTime || _menubar st); [| destruct Hin].
    apply in_map_iff in Hin as (item & <- & _).
    unfold how in Hc. destruct firstTime; simpl in Hc; injection Hc as <-; reflexivity.
  - split; reflexivity.
Qed.

(** ** Mnemonic labels *)

Local Open Scope string_scope.

Lemma strip_mnemonics_eq (c : ascii) (t : string) :
  strip_mnemonics (String c t)
  = match group_rest (String c t) with
    | Some r => strip_mnemonics r
    | None =>
        match pair_rest (String c t) with
        | Some r => strip_mnemonics r
        | None => String c (strip_mnemonics t)
        end
    end.
Proof.
  destruct t as [|c1 [|c2 [|c3 [|c4 t4]]]]; try reflexivity;
    unfold group_rest, pair_rest.
  - change (strip_mnemonics (String c (String c1 EmptyString)))
      with (if ((c =? "&") && (c1 =? "&"))%char then strip_mnemonics EmptyString
            else String c (strip_mnemonics (String c1 EmptyString))).
    destruct ((c =? "&") && (c1 =? "&"))%char; reflexivity.
  - change (strip_mnemonics (String c (String c1 (String c2 EmptyString))))
      with (if ((c =? "&") && (c1 =? "&"))%char then strip_mnemonics (String c2 EmptyString)
            else String c (strip_mnemonics (String c1 (String c2 EmptyString)))).
    destruct ((c =? "&") && (c1 =? "&"))%char; reflexivity.
  - change (strip_mnemonics (String c (String c1 (String c2 (String c3 EmptyString)))))
      with (if ((c =? "&") && (c1 =? "&"))%char then strip_mnemonics (String c2 (String c3 EmptyString))
            else String c (strip_mnemonics (String c1 (String c2 (String c3 EmptyString))))).
    destruct ((c =? "&") && (c1 =? "&"))%char; reflexivity.
  - change (strip_mnemonics (String c (String c1 (String c2 (String c3 (String c4 t4))))))
      with (if ((c =? "(") && (c1 =? "&") && (c2 =? "&") && is_word c3 && (c4 =? ")"))%char
            then strip_mnemonics t4
            else if ((c =? "&") && (c1 =? "&"))%char
                 then strip_mnemonics (String c2 (String c3 (String c4 t4)))
                 else String c (strip_mnemonics (String c1 (String c2 (String c3 (String c4 t4)))))).
    destruct ((c =? "(") && (c1 =? "&") && (c2 =? "&") && is_word c3 && (c4 =? ")"))%char;
      [reflexivity|].
    destruct ((c =? "&") && (c1 =? "&"))%char; reflexivity.
Qed.

Lemma is_word_not_special (w : ascii) :
  is_word w = true -> (w =? "&")%char = false /\ (w =? "(")%char = false.
Proof.
  intros Hw. split.
  - destruct (Ascii.eqb_spec w "&"%char) as [-> |]; [discriminate Hw | reflexivity].
  - destruct (Ascii.eqb_spec w "("%char) as [-> |]; [discriminate Hw | reflexivity].
Qed.

Lemma group_rest_inv (s r : string) :
  group_rest s = Some r ->
  exists w, is_word w = true
            /\ s = String "(" (String "&" (String "&" (String w (String ")" r)))).
Proof.
  destruct s as [|c0 [|c1 [|c2 [|c3 [|c4 t]]]]]; try discriminate.
  unfold group_rest.
  destruct (Ascii.eqb_spec c0 "("%char) as [-> |]; [| discriminate].
  destruct (Ascii.eqb_spec c1 "&"%char) as [-> |]; [| discriminate].
  destruct (Ascii.eqb_spec c2 "&"%char) as [-> |]; [| discriminate].
  destruct (is_word c3) eqn:Hw; [| discriminate].
  destruct (Ascii.eqb_spec c4 ")"%char) as [-> |]; [| discriminate].
  intros [= <-]. exists c3. split; [exact Hw | reflexivity].
Qed.

Lemma group_rest_group (w : ascii) (r : string) :
  is_word w = true ->
  group_rest (String "(" (String "&" (String "&" (String w (String ")" r))))) = Some r.
Proof. intros Hw. unfold group_rest. rewrite Hw. reflexivity. Qed.

Lemma pair_rest_inv (s r : string) :
  pair_rest s = Some r -> s = String "&" (String "&" r).
Proof.
  destruct s as [|c0 [|c1 t]]; try discriminate.
  unfold pair_rest.
  destruct (Ascii.eqb_spec c0 "&"%char) as [-> |]; [| discriminate].
  destruct (Ascii.eqb_spec c1 "&"%char) as [-> |]; [| discriminate].
  now intros [= <-].
Qed.

Lemma pair_rest_none (c : ascii) (t : string) :
  (c =? "&")%char = false \/ starts_amp t = false -> pair_rest (String c t) = None.
Proof.
  intros H. destruct t as [|c1 t]; [reflexivity|].
  unfold pair_rest. simpl in H.
  destruct H as [-> | ->]; [reflexivity | now rewrite andb_false_r].
Qed.

Lemma group_rest_none (c : ascii) (t : string) :
  (c =? "(")%char = false -> group_rest (String c t) = None.
Proof.
  intros H. destruct t as [|c1 [|c2 [|c3 [|c4 t]]]]; try reflexivity.
  unfold group_rest. now rewrite H.
Qed.

Lemma strip_mnemonics_segments (l : list Segment) :
  segmented l = true -> strip_mnemonics (render l) = render_with kept_segment l.
Proof.
  induction l as [|g l IH]; [reflexivity|].
  destruct g as [c | | | w]; cbn [segmented]; intros H.
  - apply andb_true_iff in H as [H Hl]. apply andb_true_iff in H as [Hc Hg].
    apply negb_true_iff in Hc, Hg.
    change (render (Chr c :: l)) with (String c (render l)).
    rewrite strip_mnemonics_eq.
    destruct (group_rest (String c (render l))); [simpl in Hg; discriminate Hg|].
    rewrite pair_rest_none by (now left).
    rewrite IH by exact Hl. reflexivity.
  - apply andb_true_iff in H as [Ha Hl]. apply negb_true_iff in Ha.
    change (render (Lone :: l)) with (String "&" (render l)).
    rewrite strip_mnemonics_eq.
    rewrite group_rest_none by reflexivity.
    rewrite pair_rest_none by (now right).
    rewrite IH by exact Hl. reflexivity.
  - change (render (Pair :: l)) with (String "&" (String "&" (render l))).
    rewrite strip_mnemonics_eq.
    rewrite group_rest_none by reflexivity.
    change (pair_rest (String "&" (String "&" (render l)))) with (Some (render l)).
    now apply IH.
  - apply andb_true_iff in H as [Hw Hl].
    change (render (Group w :: l))
      with (String "(" (String "&" (String "&" (String w (String ")" (render l)))))).
    rewrite strip_mnemonics_eq.
    rewrite group_rest_group by exact Hw.
    now apply IH.
Qed.

Lemma replace_amp_segments (r : string) (l : list Segment) :
  segmented l = true ->
  replace_amp r (render_with kept_segment l)
  = render_with (fun g => match g with Lone => r | _ => kept_segment g end) l.
Proof.
  induction l as [|g l IH]; [reflexivity|].
  destruct g as [c | | | w]; cbn [segmented]; intros H.
  - apply andb_true_iff in H as [H Hl]. apply andb_true_iff in H as [Hc _].
    apply negb_true_iff in Hc.
    simpl. rewrite Hc. now rewrite IH.
  - apply andb_true_iff in H as [_ Hl]. simpl. now rewrite IH.
  - simpl. now apply IH.
  - apply andb_true_iff in H as [_ Hl]. simpl. now apply IH.
Qed.

Lemma render_with_pointwise (f g : Segment -> string) (l : list Segment) :
  (forall x, f x = g x) -> render_with f l = render_with g l.
Proof.
  intros H. induction l as [|x l IH]; simpl; [reflexivity | now rewrite H, IH].
Qed.

Lemma swap_amp_segments (l : list Segment) :
  segmented l = true -> swap_amp (render l) = render_with swapped_segment l.
Proof.
  induction l as [|g l IH]; [reflexivity|].
  destruct g as [c | | | w]; cbn [segmented]; intros H.
  - apply andb_true_iff in H as [H Hl]. apply andb_true_iff in H as [Hc _].
    apply negb_true_iff in Hc.
    change (render (Chr c :: l)) with (String c (render l)).
    simpl. rewrite Hc. now rewrite IH.
  - apply andb_true_iff in H as [Ha Hl]. apply negb_true_iff in Ha.
    change (render (Lone :: l)) with (String "&" (render l)).
    specialize (IH Hl).
    destruct (render l) as [|c1 t1] eqn:Hr.
    + simpl. simpl in IH. now rewrite <- IH.
    + simpl in Ha.
      change (swap_amp (String "&" (String c1 t1)))
        with (if (c1 =? "&")%char then String "&" (swap_amp t1)
              else String "&" (String "&" (swap_amp (String c1 t1)))).
      rewrite Ha. rewrite IH. reflexivity.
  - change (render (Pair :: l)) with (String "&" (String "&" (render l))).
    change (swap_amp (String "&" (String "&" (render l))))
      with (String "&" (swap_amp (render l))).
    rewrite IH by exact H. reflexivity.
  - apply andb_true_iff in H as [Hw Hl].
    destruct (is_word_not_special w Hw) as [Hamp _].
    change (render (Group w :: l))
      with (String "(" (String "&" (String "&" (String w (String ")" (render l)))))).
    change (swap_amp (String "(" (String "&" (String "&" (String w (String ")" (render l)))))))
      with (String "(" (String "&" (swap_amp (String w (String ")" (render l)))))).
    change (swap_amp (String w (String ")" (render l))))
      with (if (w =? "&")%char
            then match String ")" (render l) with
                 | String c1 t1 =>
                     if (c1 =? "&")%char then String "&" (swap_amp t1)
                     else String "&" (String "&" (swap_amp (String ")" (render l))))
                 | EmptyString => String "&" (String "&" (swap_amp (String ")" (render l))))
                 end
            else String w (swap_amp (String ")" (render l)))).
    rewrite Hamp.
    change (swap_amp (String ")" (render l))) with (String ")" (swap_amp (render l))).
    rewrite IH by exact Hl. reflexivity.
Qed.

Lemma pair_rest_none_inv (t : string) :
  pair_rest (String "&" t) = None -> starts_amp t = false.
Proof.
  destruct t as [|c1 t]; [reflexivity|].
  unfold pair_rest. simpl.
  destruct (c1 =? "&")%char; [discriminate | reflexivity].
Qed.

Lemma segments_fuel_spec (n : nat) :
  forall s, (String.length s <= n)%nat ->
    render (segments_fuel n s) = s /\ segmented (segments_fuel n s) = true.
Proof.
  induction n as [|n IH]; intros s Hlen.
  - destruct s; [split; reflexivity | simpl in Hlen; lia].
  - destruct s as [|c t]; [split; reflexivity|].
    cbn [segments_fuel].
    destruct (group_rest (String c t)) as [r|] eqn:Hg.
    + destruct (group_rest_inv _ _ Hg) as (w & Hw & E).
      injection E as -> ->. simpl in Hlen. cbn iota.
      destruct (IH r ltac:(lia)) as [Hr Hs].
      split.
      * change (render (Group w :: segments_fuel n r))
          with (String "(" (String "&" (String "&" (String w (String ")"
                  (render (segments_fuel n r))))))).
        now rewrite Hr.
      * cbn [segmented]. now rewrite Hw, Hs.
    + destruct (pair_rest (String c t)) as [r|] eqn:Hp.
      * pose proof (pair_rest_inv _ _ Hp) as E.
        rewrite E in Hlen. simpl in Hlen.
        destruct (IH r ltac:(lia)) as [Hr Hs].
        split.
        -- change (render (Pair :: segments_fuel n r))
             with (String "&" (String "&" (render (segments_fuel n r)))).
           now rewrite Hr, E.
        -- exact Hs.
      * simpl in Hlen.
        destruct (IH t ltac:(lia)) as [Hr Hs].
        destruct (Ascii.eqb_spec c "&"%char) as [-> | Hc].
        -- split.
           ++ change (render (Lone :: segments_fuel n t))
                with (String "&" (render (segments_fuel n t))).
              now rewrite Hr.
           ++ cbn [segmented]. rewrite Hr, Hs.
              now rewrite (pair_rest_none_inv t Hp).
        -- split.
           ++ change (render (Chr c :: segments_fuel n t))
                with (String c (render (segments_fuel n t))).
              now rewrite Hr.
           ++ cbn [segmented]. rewrite Hr, Hs, Hg.
              apply Ascii.eqb_neq in Hc. now rewrite Hc.
Qed.

(** Every label has a left-to-right reading. *)
Lemma segments_complete (label : string) :
  exists l, segmented l = true /\ render l = label.
Proof.
  exists (segments label).
  destruct (segments_fuel_spec (String.length label) label (le_n _)) as [Hr Hs].
  split; assumption.
Qed.

Lemma strip_mnemonics_no_amp (s : string) :
  has_amp s = false -> strip_mnemonics s = s.
Proof.
  induction s as [|c t IH]; [reflexivity|].
  simpl has_amp. intros H. apply orb_false_iff in H as [Hc Ht].
  rewrite strip_mnemonics_eq.
  destruct (group_rest (String c t)) as [r|] eqn:Hg.
  - destruct (group_rest_inv _ _ Hg) as (w & _ & E).
    injection E as -> ->. discriminate Ht.
  - rewrite pair_rest_none by (now left).
    now rewrite IH.
Qed.

Lemma replace_amp_no_amp (r s : string) :
  has_amp s = false -> replace_amp r s = s.
Proof.
  induction s as [|c t IH]; [reflexivity|].
  simpl. intros H. apply orb_false_iff in H as [-> Ht].
  now rewrite IH.
Qed.

(** C5, as stated, fails: the label [&File] is one single [&] and four
    other characters, and the transform writes the [&] twice. *)
Lemma nonmac_single_amp_as_stated_fails :
  let l := [Lone; Chr "F"; Chr "i"; Chr "l"; Chr "e"] in
  segmented l = true
  /\ render l = "&File"
  /\ render_with spec_nonmac_segment l = "&File"
  /\ mnemonicMenuLabel false "&File" None = "&&File"
  /\ mnemonicMenuLabel false (render l) None <> render_with spec_nonmac_segment l.
Proof. repeat split. vm_compute. discriminate. Qed.

(** C5, amended.  Off Macintosh with mnemonics not force-disabled, the
    transform reads the label from the left and writes one [&] for every
    pair [&&] and a pair [&&] for every single [&]; every other character
    is copied.  Every label has such a reading. *)
Theorem nonmac_transform_swaps (force : option bool) :
  truthy_opt force = false ->
  (forall l, segmented l = true ->
     mnemonicMenuLabel false (render l) force = render_with swapped_segment l)
  /\ (forall label, exists l, segmented l = true /\ render l = label).
Proof.
  intros Hf. split.
  - intros l Hl. unfold mnemonicMenuLabel. rewrite Hf. simpl.
    now apply swap_amp_segments.
  - exact segments_complete.
Qed.

Lemma nonmac_transform_swaps_witness :
  truthy_opt None = false
  /\ mnemonicMenuLabel false "&File && &Edit" None = "&&File & &&Edit".
Proof.
  split; [reflexivity|].
  exact (proj1 (nonmac_transform_swaps None eq_refl)
           [Lone; Chr "F"; Chr "i"; Chr "l"; Chr "e"; Chr " "; Pair; Chr " ";
            Lone; Chr "E"; Chr "d"; Chr "i"; Chr "t"] eq_refl).
Defined.

(** C6.  On Macintosh, or with mnemonics force-disabled, the transform
    reads the label from the left, leaves out every [(&&X)] group and
    every pair [&&], and writes every remaining single [&] in the form
    that shows a literal ampersand: [&] itself on Macintosh, where there
    are no mnemonics, and [&&] elsewhere.  Every label has such a
    reading, and a label without [&] comes back unchanged. *)
Theorem strip_transform (isMac : bool) (force : option bool) :
  isMac || truthy_opt force = true ->
  (forall l, segmented l = true ->
     mnemonicMenuLabel isMac (render l) force
     = render_with (stripped_segment isMac) l)
  /\ (forall label, exists l, segmented l = true /\ render l = label)
  /\ (forall label, has_amp label = false ->
        mnemonicMenuLabel isMac label force = label).
Proof.
  intros H. unfold mnemonicMenuLabel. rewrite H.
  split; [| split].
  - intros l Hl.
    rewrite strip_mnemonics_segments by exact Hl.
    rewrite replace_amp_segments by exact Hl.
    apply render_with_pointwise. intros [c | | | w]; reflexivity.
  - exact segments_complete.
  - intros label Hl.
    rewrite strip_mnemonics_no_amp by exact Hl.
    now apply replace_amp_no_amp.
Qed.

Lemma strip_transform_witness :
  (true || truthy_opt None = true
   /\ mnemonicMenuLabel true "Save (&&S) & e&&xit" None = "Save  & exit"
   /\ mnemonicMenuLabel true "Help" None = "Help")
  /\ (false || truthy_opt (Some true) = true
      /\ mnemonicMenuLabel false "Save (&&S) & e&&xit" (Some true) = "Save  && exit").
Proof.
  pose (l := [Chr "S"; Chr "a"; Chr "v"; Chr "e"; Chr " "; Group "S"; Chr " "; Lone;
              Chr " "; Chr "e"; Pair; Chr "x"; Chr "i"; Chr "t"]).
  split.
  - split; [reflexivity | split].
    + exact (proj1 (strip_transform true None eq_refl) l eq_refl).
    + exact (proj2 (proj2 (strip_transform true None eq_refl)) "Help" eq_refl).
  - split; [reflexivity |].
    exact (proj1 (strip_transform false (Some true) eq_refl) l eq_refl).
Defined.

Local Close Scope string_scope.

(** ** Host-side relay *)

Lemma emit_on (event event' : string) (l : Listener) (bw : BrowserWindow) :
  sent (emit event (on event' l bw))
  = if String.eqb event' event then l (sent (emit event bw)) else sent (emit event bw).
Proof.
  unfold emit, on. simpl. rewrite fold_left_app. reflexivity.
Qed.

Lemma emit_setMinimumSize (event : string) (w h : Z) (bw : BrowserWindow) :
  sent (emit event (setMinimumSize w h bw)) = sent (emit event bw).
Proof. reflexivity. Qed.

(** What the relay sends for an event of the window. *)
Lemma emit_attach (event : string) (bw : BrowserWindow) :
  sent (emit event (attach bw))
  = sent (emit event bw)
    ++ (if String.eqb "enter-full-screen" event then [("window-fullscreen"%string, true)] else [])
    ++ (if String.eqb "leave-full-screen" event then [("window-fullscreen"%string, false)] else [])
    ++ (if String.eqb "focus" event then [("window-focus"%string, true)] else [])
    ++ (if String.eqb "blur" event then [("window-focus"%string, false)] else []).
Proof.
  unfold attach. cbv zeta.
  rewrite !emit_on, emit_setMinimumSize. unfold send.
  destruct (String.eqb "enter-full-screen" event),
           (String.eqb "leave-full-screen" event),
           (String.eqb "focus" event),
           (String.eqb "blur" event);
    simpl; rewrite <- ?app_assoc, ?app_nil_r; reflexivity.
Qed.

(** C10.  Attaching sets the minimum size of the window to width 400, so to
    a width of at least 400, and to a height taken from the former minimum
    size (the former height when it is not zero, 270 otherwise).  After
    that, whatever the window sent for an event before, it now also sends
    [window-fullscreen] with [true] on entering and [false] on leaving
    full screen, and [window-focus] with [true] on focus and [false] on
    blur. *)
Theorem attach_relay (bw : BrowserWindow) :
  minimumSize (attach bw) = [400; attach_height (minimumSize bw)]
  /\ (exists width height, minimumSize (attach bw) = [width; height] /\ 400 <= width)
  /\ (forall w h, attach_height [w; h] = if h =? 0 then 270 else h)
  /\ sent (emit "enter-full-screen" (attach bw))
     = sent (emit "enter-full-screen" bw) ++ [("window-fullscreen"%string, true)]
  /\ sent (emit "leave-full-screen" (attach bw))
     = sent (emit "leave-full-screen" bw) ++ [("window-fullscreen"%string, false)]
  /\ sent (emit "focus" (attach bw))
     = sent (emit "focus" bw) ++ [("window-focus"%string, true)]
  /\ sent (emit "blur" (attach bw))
     = sent (emit "blur" bw) ++ [("window-focus"%string, false)].
Proof.
  split; [reflexivity |].
  split; [exists 400, (attach_height (minimumSize bw)); split; [reflexivity | lia] |].
  split.
  { intros w h. unfold attach_height, truthy_at, truthy. simpl.
    destruct (h =? 0); reflexivity. }
  repeat split; rewrite emit_attach; reflexivity.
Qed.

(** ** More on the keybinding encoding *)

Lemma testbit_low_of_mod (p q n k : Z) :
  0 <= k < n -> p mod 2 ^ n = q mod 2 ^ n -> Z.testbit p k = Z.testbit q k.
Proof.
  intros Hk H.
  rewrite <- (Z.mod_pow2_bits_low p n k), <- (Z.mod_pow2_bits_low q n k) by lia.
  now rewrite H.
Qed.

Lemma createSimpleKeybinding_eq_iff (p q : Z) (os : OperatingSystem) :
  createSimpleKeybinding p os = createSimpleKeybinding q os
  <-> p mod 2 ^ 12 = q mod 2 ^ 12.
Proof.
  rewrite !createSimpleKeybinding_fields. split.
  - intros H.
    assert (Hbits : Z.testbit p 8 = Z.testbit q 8 /\ Z.testbit p 11 = Z.testbit q 11
                    /\ Z.testbit p 10 = Z.testbit q 10 /\ Z.testbit p 9 = Z.testbit q 9
                    /\ p mod 256 = q mod 256).
    { destruct os; simpl in H; injection H; intros; repeat split; assumption. }
    destruct Hbits as (H8 & H11 & H10 & H9 & Hlow).
    apply Z.bits_inj'. intros n Hn.
    destruct (Z.lt_ge_cases n 12) as [Hlt | Hge].
    + rewrite !Z.mod_pow2_bits_low by lia.
      destruct (Z.lt_ge_cases n 8) as [Hlt8 | Hge8].
      * apply (testbit_low_of_mod p q 8 n); [lia | exact Hlow].
      * assert (Hcases : n = 8 \/ n = 9 \/ n = 10 \/ n = 11) by lia.
        destruct Hcases as [-> | [-> | [-> | ->]]]; assumption.
    + rewrite !Z.mod_pow2_bits_high by lia. reflexivity.
  - intros H.
    rewrite (testbit_low_of_mod p q 12 8), (testbit_low_of_mod p q 12 9),
            (testbit_low_of_mod p q 12 10), (testbit_low_of_mod p q 12 11)
      by (try lia; exact H).
    assert (Hd : (256 | 2 ^ 12)) by (exists 16; reflexivity).
    rewrite <- (Z.mod_mod_divide p (2 ^ 12) 256 Hd).
    rewrite <- (Z.mod_mod_divide q (2 ^ 12) 256 Hd).
    now rewrite H.
Qed.

(** X1.  Decoding reads the low 12 bits of the packed number and nothing
    else: two numbers decode to the same keybinding, on a given OS, exactly
    when they agree modulo 2^12; so a number and its low 12 bits decode
    alike, and distinct 12-bit numbers decode to distinct keybindings. *)
Theorem decode_reads_low_12_bits (p q : Z) (os : OperatingSystem) :
  (createSimpleKeybinding p os = createSimpleKeybinding q os
   <-> p mod 2 ^ 12 = q mod 2 ^ 12)
  /\ createSimpleKeybinding (p mod 2 ^ 12) os = createSimpleKeybinding p os.
Proof.
  split.
  - apply createSimpleKeybinding_eq_iff.
  - apply createSimpleKeybinding_eq_iff. apply Z.mod_mod. lia.
Qed.

(** X2.  The hash code of a decoded keybinding tells the low 12 bits of
    the packed number apart: two packed numbers give the same hash code on
    a given OS exactly when they agree modulo 2^12. *)
Theorem hash_of_decoded_keybinding (p q : Z) (os : OperatingSystem) :
  SimpleKeybinding.getHashCode (createSimpleKeybinding p os)
  = SimpleKeybinding.getHashCode (createSimpleKeybinding q os)
  <-> p mod 2 ^ 12 = q mod 2 ^ 12.
Proof.
  rewrite <- createSimpleKeybinding_eq_iff. split.
  - apply getHashCode_inj.
  - now intros ->.
Qed.

(** X3.  A keybinding that is a duplicate-modifier case always has a
    modifier key as its key code. *)
Theorem duplicate_modifier_is_modifier_key {KC : KeyCodeEnum} (kb : SimpleKeybinding.t) :
  SimpleKeybinding.isDuplicateModifierCase kb = true ->
  SimpleKeybinding.isModifierKey kb = true.
Proof.
  unfold SimpleKeybinding.isDuplicateModifierCase, SimpleKeybinding.isModifierKey.
  rewrite !orb_true_iff, !andb_true_iff. tauto.
Qed.

Lemma duplicate_modifier_is_modifier_key_witness :
  @SimpleKeybinding.isDuplicateModifierCase sample_KeyCode
    (SimpleKeybinding.new false true false false 4) = true
  /\ @SimpleKeybinding.isModifierKey sample_KeyCode
       (SimpleKeybinding.new false true false false 4) = true.
Proof.
  split; [reflexivity |].
  exact (@duplicate_modifier_is_modifier_key sample_KeyCode
           (SimpleKeybinding.new false true false false 4) eq_refl).
Defined.

Lemma scan_equals_eq (a b : ScanCodeBinding.t) :
  ScanCodeBinding.equals a b = true <-> a = b.
Proof.
  unfold ScanCodeBinding.equals.
  rewrite !andb_true_iff, !eqb_true_iff, Z.eqb_eq. split.
  - destruct a, b; simpl. intros ((((-> & ->) & ->) & ->) & ->). reflexivity.
  - intros ->. repeat split.
Qed.

(** X4.  [ScanCodeBinding.equals] is an equivalence relation, and it holds
    exactly when the two bindings have the same five fields. *)
Theorem ScanCodeBinding_equals_equivalence :
  (forall a, ScanCodeBinding.equals a a = true)
  /\ (forall a b, ScanCodeBinding.equals a b = ScanCodeBinding.equals b a)
  /\ (forall a b c, ScanCodeBinding.equals a b = true ->
                    ScanCodeBinding.equals b c = true ->
                    ScanCodeBinding.equals a c = true)
  /\ (forall a b,
        ScanCodeBinding.equals a b = true
        <-> ScanCodeBinding.ctrlKey a = ScanCodeBinding.ctrlKey b
            /\ ScanCodeBinding.shiftKey a = ScanCodeBinding.shiftKey b
            /\ ScanCodeBinding.altKey a = ScanCodeBinding.altKey b
            /\ ScanCodeBinding.metaKey a = ScanCodeBinding.metaKey b
            /\ ScanCodeBinding.scanCode a = ScanCodeBinding.scanCode b).
Proof.
  split; [| split; [| split]].
  - intros a. now apply scan_equals_eq.
  - intros a b.
    destruct (ScanCodeBinding.equals a b) eqn:Hab,
             (ScanCodeBinding.equals b a) eqn:Hba; try reflexivity.
    + apply scan_equals_eq in Hab. subst b.
      assert (ScanCodeBinding.equals a a = true) by now apply scan_equals_eq.
      congruence.
    + apply scan_equals_eq in Hba. subst b.
      assert (ScanCodeBinding.equals a a = true) by now apply scan_equals_eq.
      congruence.
  - intros a b c Hab Hbc. apply scan_equals_eq in Hab, Hbc. subst.
    now apply scan_equals_eq.
  - intros a b. rewrite scan_equals_eq. split.
    + intros ->. repeat split.
    + destruct a, b; simpl. intros (-> & -> & -> & -> & ->). reflexivity.
Qed.

(** X5.  [SimpleKeybinding.equals] is transitive, and keybindings that are
    [equals] are told apart by none of the methods: same hash code, same
    answer to [isModifierKey] and to [isDuplicateModifierCase]. *)
Theorem SimpleKeybinding_equals_transitive {KC : KeyCodeEnum}
    (a b c : SimpleKeybinding.t) :
  SimpleKeybinding.equals a b = true ->
  SimpleKeybinding.equals b c = true ->
  SimpleKeybinding.equals a c = true
  /\ SimpleKeybinding.getHashCode a = SimpleKeybinding.getHashCode c
  /\ SimpleKeybinding.isModifierKey a = SimpleKeybinding.isModifierKey c
  /\ SimpleKeybinding.isDuplicateModifierCase a
     = SimpleKeybinding.isDuplicateModifierCase c.
Proof.
  intros Hab Hbc. apply equals_eq in Hab, Hbc. subst.
  repeat split. now apply equals_eq.
Qed.

Lemma SimpleKeybinding_equals_transitive_witness :
  SimpleKeybinding.equals (createSimpleKeybinding 2049 Windows)
                          (createSimpleKeybinding 257 Macintosh) = true
  /\ SimpleKeybinding.equals (createSimpleKeybinding 257 Macintosh)
                             (createSimpleKeybinding 6145 Linux) = true
  /\ SimpleKeybinding.equals (createSimpleKeybinding 2049 Windows)
                             (createSimpleKeybinding 6145 Linux) = true.
Proof.
  split; [reflexivity | split; [reflexivity |]].
  exact (proj1 (@SimpleKeybinding_equals_transitive sample_KeyCode
                  (createSimpleKeybinding 2049 Windows)
                  (createSimpleKeybinding 257 Macintosh)
                  (createSimpleKeybinding 6145 Linux) eq_refl eq_refl)).
Defined.

(** ** Icon size *)

(** X6.  The icon height is always between 16 and 24; a size within these
    bounds is kept as it is, a missing size or zero gives 16, and clamping
    twice changes nothing. *)
Theorem icon_size_clamped (size : option Z) :
  16 <= icon_size size <= 24
  /\ (forall z, 16 <= z <= 24 -> icon_size (Some z) = z)
  /\ icon_size None = 16 /\ icon_size (Some 0) = 16
  /\ (forall z, z <= 16 -> icon_size (Some z) = 16)
  /\ (forall z, 24 <= z -> icon_size (Some z) = 24)
  /\ icon_size (Some (icon_size size)) = icon_size size.
Proof.
  assert (Hin : forall z, 16 <= z <= 24 -> icon_size (Some z) = z).
  { intros z Hz. unfold icon_size, truthy.
    destruct (Z.eqb_spec z 0); [lia |]. simpl.
    destruct (Z.leb_spec z 16); destruct (Z.leb_spec 24 z); try lia;
      destruct (Z.leb_spec 24 16); lia. }
  assert (Hb : 16 <= icon_size size <= 24).
  { unfold icon_size, truthy. destruct size as [z |]; [| simpl; lia].
    destruct (Z.eqb_spec z 0); simpl; [lia |].
    destruct (Z.leb_spec z 16); [simpl; lia |].
    destruct (Z.leb_spec 24 z); lia. }
  repeat split; try (apply Hb); try exact Hin; try reflexivity.
  - intros z Hz. unfold icon_size, truthy.
    destruct (Z.eqb_spec z 0); simpl; [reflexivity |].
    destruct (Z.leb_spec z 16); [reflexivity | lia].
  - intros z Hz. unfold icon_size, truthy.
    destruct (Z.eqb_spec z 0); simpl; [lia |].
    destruct (Z.leb_spec z 16); simpl; [lia |].
    destruct (Z.leb_spec 24 z); [reflexivity | lia].
  - now apply Hin.
Qed.

Lemma icon_size_clamped_witness : icon_size (Some 20) = 20 /\ icon_size (Some 300) = 24.
Proof.
  split.
  - exact (proj1 (proj2 (icon_size_clamped None)) 20 ltac:(lia)).
  - pose proof (icon_size_clamped None) as (_ & _ & _ & _ & _ & H & _).
    exact (H 300 ltac:(lia)).
Defined.

(** ** Class lists *)

Lemma contains_add_same (c : string) (l : list string) :
  classList_contains c (classList_add c l) = true.
Proof.
  unfold classList_add. destruct (classList_contains c l) eqn:H; [exact H |].
  unfold classList_contains. rewrite existsb_app. simpl.
  rewrite String.eqb_refl. now rewrite orb_true_r.
Qed.

Lemma contains_add_other (c d : string) (l : list string) :
  c <> d -> classList_contains c (classList_add d l) = classList_contains c l.
Proof.
  intros Hcd. unfold classList_add. destruct (classList_contains d l); [reflexivity |].
  unfold classList_contains. rewrite existsb_app. simpl.
  apply String.eqb_neq in Hcd. rewrite Hcd. now rewrite !orb_false_r.
Qed.

Lemma contains_remove_same (c : string) (l : list string) :
  classList_contains c (classList_remove c l) = false.
Proof.
  unfold classList_contains, classList_remove.
  induction l as [|x l IH]; simpl; [reflexivity |].
  destruct (String.eqb c x) eqn:E; simpl; [exact IH |].
  now rewrite E.
Qed.

Lemma contains_remove_other (c d : string) (l : list string) :
  c <> d -> classList_contains c (classList_remove d l) = classList_contains c l.
Proof.
  intros Hcd. unfold classList_contains, classList_remove.
  induction l as [|x l IH]; simpl; [reflexivity |].
  destruct (String.eqb d x) eqn:E; simpl.
  - apply String.eqb_eq in E. subst x.
    apply String.eqb_neq in Hcd. now rewrite Hcd.
  - now rewrite IH.
Qed.

(** ** Menu position and full screen *)

(** X7.  Entering and then leaving full screen brings the content back to
    the offset the current menu position asked for, and leaves the height
    of the title bar as it was; off Macintosh the title bar is shown again
    and is hidden in between with the content at offset zero, on Macintosh
    nothing changes at all. *)
Theorem fullscreen_round_trip (isMac v11 : bool) (p : MenuPosition) (st : LayoutState) :
  let placed := updateMenuPosition isMac v11 p st in
  let full := onWindowFullScreen isMac v11 true placed in
  let back := onWindowFullScreen isMac v11 false full in
  container_top back = container_top placed
  /\ titlebar_height back = titlebar_height placed
  /\ menubar_classes back = menubar_classes placed
  /\ (if isMac then full = placed /\ back = placed
      else titlebar_hidden full = true /\ container_top full = "0px"%string
           /\ titlebar_hidden back = false).
Proof.
  destruct isMac, p; simpl; repeat split.
Qed.

(** X8.  What [updateMenuPosition] leaves in the class list of the menu
    bar container: [left] clears both [right] and [bottom]; [right] sets
    [right] and leaves [bottom] as it was; [bottom] sets [bottom] and
    leaves [right] as it was.  Title bar height and content offset are
    always set to the same value, 60px for [bottom]. *)
Theorem menu_position_classes (isMac v11 : bool) (p : MenuPosition) (st : LayoutState) :
  let st' := updateMenuPosition isMac v11 p st in
  classList_contains "right" (menubar_classes st')
  = match p with
    | MenuLeft => false
    | MenuRight => true
    | MenuBottom => classList_contains "right" (menubar_classes st)
    end
  /\ classList_contains "bottom" (menubar_classes st')
     = match p with
       | MenuLeft => false
       | MenuRight => classList_contains "bottom" (menubar_classes st)
       | MenuBottom => true
       end
  /\ titlebar_height st' = container_top st'
  /\ container_top st'
     = match p with
       | MenuBottom => "60px"%string
       | _ => if isMac then (if v11 then "28px"%string else "22px"%string)
              else "30px"%string
       end
  /\ menuPosition st' = Some p.
Proof.
  destruct p, isMac, v11; simpl; repeat split;
    first [ apply contains_remove_same
          | apply contains_add_same
          | (apply contains_add_other; discriminate)
          | (rewrite contains_remove_other by discriminate; apply contains_remove_same) ].
Qed.

(** ** Title alignment *)

(** X9.  With the order [inverted], aligning the title [left] and aligning
    it [right] end in the same margins, those of a title pushed to the
    right (left margin [auto], right margin 8px); with any other order
    [left] gives left margin 8px and right margin [auto], and [right] the
    opposite.  The former margins play no part. *)
Theorem alignment_margins (isMac : bool) (order : option Order)
    (position : option MenuPosition) (st : TitleState) :
  let l := updateTitleAlignment isMac order position SideLeft st in
  let r := updateTitleAlignment isMac order position SideRight st in
  (title_marginLeft r, title_marginRight r) = ("auto"%string, "8px"%string)
  /\ (title_marginLeft l, title_marginRight l)
     = (if order_is order OrderInverted then ("auto"%string, "8px"%string)
        else ("8px"%string, "auto"%string))
  /\ resize_listeners l = resize_listeners st
  /\ resize_listeners r = resize_listeners st
  /\ title_maxWidth l = title_maxWidth st
  /\ title_maxWidth r = title_maxWidth st.
Proof.
  unfold updateTitleAlignment. simpl.
  destruct (order_is order OrderInverted); simpl; repeat split.
Qed.

(** X10.  Centring the title does not touch the margins an earlier
    alignment has set; it sets the maximal width, and every call adds one
    more centring listener on [resize] unless the menu is at the bottom. *)
Theorem center_alignment (isMac : bool) (order : option Order)
    (position : option MenuPosition) (st : TitleState) :
  let c := updateTitleAlignment isMac order position SideCenter st in
  title_marginLeft c = title_marginLeft st
  /\ title_marginRight c = title_marginRight st
  /\ title_maxWidth c = "calc(100vw - 296px)"%string
  /\ resize_listeners c
     = (if position_is position MenuBottom then resize_listeners st
        else S (resize_listeners st))
  /\ controls_marginLeft c
     = (if isMac || order_is order OrderFirstButtons then controls_marginLeft st
        else "auto"%string).
Proof.
  unfold updateTitleAlignment. simpl.
  destruct (position_is position MenuBottom), isMac,
           (order_is order OrderFirstButtons); simpl; repeat split.
Qed.

(** ** Focus and colours *)

Section StyleProperties.

Variable Color : Type.
Variable fromHex : string -> Color.
Variable lighten darken : Color -> Q -> Color.
Variable isLighter : Color -> bool.
Variable Color_equals : Color -> option Color -> bool.
Variable Color_toString : Color -> string.
Variable black12 : Color.

Abbreviation styles := (_updateStyles Color fromHex lighten darken isLighter Color_equals
                                  Color_toString black12).
Abbreviation focus := (onWindowFocus Color fromHex lighten darken isLighter Color_equals
                                 Color_toString black12).

(** X11.  After [onWindowFocus] the title bar carries the class
    [inactive] exactly when the window has lost the focus, whatever its
    classes were before, and [_isInactive] says the same. *)
Theorem focus_sets_inactive_class (f : bool) (st : StyleState Color) :
  classList_contains "inactive" (titlebar_classes Color (focus f st)) = negb f
  /\ _isInactive Color (focus f st) = Some (negb f).
Proof.
  unfold onWindowFocus, _onFocus, _onBlur, _updateStyles, _closeMenu.
  destruct f; simpl.
  - split; [| reflexivity].
    rewrite contains_add_other by discriminate. apply contains_remove_same.
  - destruct (has_menubar Color st); simpl; (split; [| reflexivity]);
      rewrite contains_add_other by discriminate; apply contains_add_same.
Qed.

(** X12.  [_updateStyles] always leaves the class [light] on the title
    bar, whether the background is light or dark, and the text colour it
    sets is one of the four foreground constants. *)
Theorem styles_always_light (st : StyleState Color) :
  classList_contains "light" (titlebar_classes Color (styles st)) = true
  /\ In (style_color Color (styles st))
        (map Color_toString
           [INACTIVE_FOREGROUND_DARK Color fromHex; ACTIVE_FOREGROUND_DARK Color fromHex;
            INACTIVE_FOREGROUND Color fromHex; ACTIVE_FOREGROUND Color fromHex]).
Proof.
  unfold _updateStyles. simpl. split.
  - apply contains_add_same.
  - destruct (isLighter_opt Color isLighter _), (truthy_opt (_isInactive Color st));
      simpl; auto.
Qed.

(** X13.  With a menu bar, losing the focus blurs the menu bar once and
    then restyles it; gaining the focus only restyles it.  Without a menu
    bar no call is made. *)
Theorem focus_menubar_calls (st : StyleState Color) :
  (has_menubar Color st = true ->
     (exists s, style_calls Color (focus false st)
                = style_calls Color st
                  ++ [MenuBar_blur Color; MenuBar_style Color s])
     /\ (exists s, style_calls Color (focus true st)
                   = style_calls Color st ++ [MenuBar_style Color s]))
  /\ (has_menubar Color st = false ->
      forall f, style_calls Color (focus f st) = style_calls Color st).
Proof.
  unfold onWindowFocus, _onFocus, _onBlur, _updateStyles, _closeMenu.
  split; intros Hm.
  - split; simpl; rewrite Hm; simpl; rewrite ?Hm; eexists;
      rewrite <- ?app_assoc; reflexivity.
  - intros f. destruct f; simpl; rewrite Hm; simpl; rewrite ?Hm; reflexivity.
Qed.

Abbreviation load := (_loadBackgroundColor Color fromHex).

(** X14.  Without a configured background colour, the colour is read from
    the first [meta] element named [theme-color] or
    [msapplication-TileColor] (later ones are not looked at), white when
    its content is empty and white when there is no such element; a
    configured colour is kept. *)
Theorem background_from_first_meta :
  (forall pre node post,
      forallb (fun n => negb (names_color n)) pre = true ->
      names_color node = true ->
      load (pre ++ node :: post) None
      = Some (fromHex (if String.eqb (snd node) EmptyString then "#ffffff"%string
                       else snd node)))
  /\ (forall nodes, forallb (fun n => negb (names_color n)) nodes = true ->
        load nodes None = Some (fromHex "#ffffff"))
  /\ (forall nodes c, load nodes (Some c) = Some c).
Proof.
  unfold _loadBackgroundColor. split; [| split].
  - intros pre node post Hpre Hnode. f_equal.
    induction pre as [|x pre IH]; simpl.
    + unfold names_color in Hnode. now rewrite Hnode.
    + simpl in Hpre. apply andb_true_iff in Hpre as [Hx Hpre].
      apply negb_true_iff in Hx. unfold names_color in Hx. rewrite Hx.
      now apply IH.
  - intros nodes Hn. f_equal.
    induction nodes as [|x nodes IH]; simpl; [reflexivity |].
    simpl in Hn. apply andb_true_iff in Hn as [Hx Hn].
    apply negb_true_iff in Hx. unfold names_color in Hx. rewrite Hx.
    now apply IH.
  - reflexivity.
Qed.

End StyleProperties.


Lemma focus_menubar_calls_witness :
  let st := mkStyleState string [] None (Some "#ffffff"%string) None
                         EmptyString EmptyString true [] in
  has_menubar string st = true
  /\ exists s,
       style_calls string
         (onWindowFocus string (fun h => h) (fun c _ => c) (fun c _ => c) hex_isLighter
            (fun _ _ => false) (fun c => c) "#000000"%string false st)
       = [MenuBar_blur string; MenuBar_style string s].
Proof.
  intros st. split; [reflexivity |].
  exact (proj1 (proj1 (focus_menubar_calls string (fun h => h) (fun c _ => c)
                         (fun c _ => c) hex_isLighter (fun _ _ => false) (fun c => c)
                         "#000000"%string st) eq_refl)).
Defined.

Lemma background_from_first_meta_witness :
  let pre := [("viewport"%string, "width=device-width"%string)] in
  let node := ("theme-color"%string, "#1e1e1e"%string) in
  let post := [("msapplication-TileColor"%string, "#ff0000"%string)] in
  forallb (fun n => negb (names_color n)) pre = true
  /\ names_color node = true
  /\ _loadBackgroundColor string (fun h => h) (pre ++ node :: post) None
     = Some "#1e1e1e"%string.
Proof.
  intros pre node post.
  split; [reflexivity | split; [reflexivity |]].
  exact (proj1 (background_from_first_meta string (fun h => h)) pre node post
           eq_refl eq_refl).
Defined.

Local Open Scope string_scope.

(** ** More on mnemonic labels *)

Lemma swap_amp_no_amp (s : string) : has_amp s = false -> swap_amp s = s.
Proof.
  induction s as [|c t IH]; [reflexivity |].
  simpl. intros H. apply orb_false_iff in H as [-> Ht].
  now rewrite IH.
Qed.

Lemma replace_amp_single (s : string) : replace_amp "&" s = s.
Proof.
  induction s as [|c t IH]; [reflexivity |].
  simpl. rewrite IH.
  destruct (Ascii.eqb_spec c "&"%char) as [-> |]; reflexivity.
Qed.


Lemma swap_amp_without_amp (n : nat) :
  forall s, (String.length s <= n)%nat -> without_amp (swap_amp s) = without_amp s.
Proof.
  induction n as [|n IH]; intros s Hlen.
  - destruct s; [reflexivity | simpl in Hlen; lia].
  - destruct s as [|c t]; [reflexivity |].
    simpl in Hlen.
    destruct (Ascii.eqb_spec c "&"%char) as [-> | Hc].
    + destruct t as [|c1 t1].
      * reflexivity.
      * simpl in Hlen.
        change (swap_amp (String "&" (String c1 t1)))
          with (if (c1 =? "&")%char then String "&" (swap_amp t1)
                else String "&" (String "&" (swap_amp (String c1 t1)))).
        destruct (Ascii.eqb_spec c1 "&"%char) as [-> | Hc1].
        -- simpl. apply IH. lia.
        -- change (without_amp (String "&" (String "&" (swap_amp (String c1 t1)))))
             with (without_amp (swap_amp (String c1 t1))).
           change (without_amp (String "&" (String c1 t1)))
             with (without_amp (String c1 t1)).
           apply IH. simpl. lia.
    + apply Ascii.eqb_neq in Hc. simpl. rewrite Hc. simpl. rewrite Hc.
      f_equal. apply IH. lia.
Qed.

Lemma swap_amp_replace_amp (s : string) : swap_amp (replace_amp "&&" s) = s.
Proof.
  induction s as [|c t IH]; [reflexivity |].
  destruct (Ascii.eqb_spec c "&"%char) as [-> | Hc].
  - change (replace_amp "&&" (String "&" t))
      with (String "&" (String "&" (replace_amp "&&" t))).
    change (swap_amp (String "&" (String "&" (replace_amp "&&" t))))
      with (String "&" (swap_amp (replace_amp "&&" t))).
    now rewrite IH.
  - apply Ascii.eqb_neq in Hc. simpl. rewrite Hc. simpl. rewrite Hc.
    now rewrite IH.
Qed.

(** X15.  A label without [&] comes out of [mnemonicMenuLabel] unchanged,
    on every platform and whether mnemonics are force-disabled or not. *)
Theorem plain_label_unchanged (isMac : bool) (force : option bool) (label : string) :
  has_amp label = false -> mnemonicMenuLabel isMac label force = label.
Proof.
  intros H. unfold mnemonicMenuLabel.
  destruct (isMac || truthy_opt force).
  - rewrite strip_mnemonics_no_amp by exact H. now apply replace_amp_no_amp.
  - now apply swap_amp_no_amp.
Qed.

Lemma plain_label_unchanged_witness :
  has_amp "Open Recent" = false
  /\ mnemonicMenuLabel false "Open Recent" None = "Open Recent"
  /\ mnemonicMenuLabel false "Open Recent" (Some true) = "Open Recent"
  /\ mnemonicMenuLabel true "Open Recent" None = "Open Recent".
Proof.
  split; [reflexivity |].
  split; [| split].
  - exact (plain_label_unchanged false None "Open Recent" eq_refl).
  - exact (plain_label_unchanged false (Some true) "Open Recent" eq_refl).
  - exact (plain_label_unchanged true None "Open Recent" eq_refl).
Defined.


(** X17.  Off Macintosh with mnemonics not force-disabled, the transform
    only touches ampersands: the other characters of the label come out
    the same and in the same order. *)
Theorem enabled_transform_keeps_other_characters (force : option bool) (label : string) :
  truthy_opt force = false ->
  without_amp (mnemonicMenuLabel false label force) = without_amp label.
Proof.
  intros Hf. unfold mnemonicMenuLabel. rewrite Hf. simpl.
  apply (swap_amp_without_amp (String.length label)). lia.
Qed.

Lemma enabled_transform_keeps_other_characters_witness :
  truthy_opt (Some false) = false
  /\ mnemonicMenuLabel false "Save &&As (&&&)" (Some false) = "Save &As (&&&)"
  /\ without_amp (mnemonicMenuLabel false "Save &&As (&&&)" (Some false)) = "Save As ()".
Proof.
  split; [reflexivity | split; [reflexivity |]].
  exact (enabled_transform_keeps_other_characters (Some false) "Save &&As (&&&)" eq_refl).
Defined.

(** X18.  Off Macintosh, a label made with mnemonics force-disabled and
    then passed through the transform with mnemonics enabled is the label
    Macintosh shows: the doubled ampersands of the first pass are read
    back as single ones. *)
Theorem enable_after_disable (force : option bool) (label : string) :
  mnemonicMenuLabel false (mnemonicMenuLabel false label (Some true)) None
  = mnemonicMenuLabel true label force.
Proof.
  unfold mnemonicMenuLabel. simpl.
  now rewrite swap_amp_replace_amp, replace_amp_single.
Qed.

Local Close Scope string_scope.

(** ** More on the action tree *)

Lemma constructed_length (isMac : bool) (title : string) (item : MenuItem) :
  (List.length (constructed isMac title item) <= 1)%nat.
Proof.
  unfold constructed. destruct (submenu item); [| simpl; lia].
  cbv zeta. destruct (0 <? _); simpl; lia.
Qed.

Lemma flat_map_length_le {A B} (f : A -> list B) (l : list A) :
  (forall x, (List.length (f x) <= 1)%nat) ->
  (List.length (flat_map f l) <= List.length l)%nat.
Proof.
  intros H. induction l as [|x l IH]; simpl; [lia |].
  rewrite length_app. specialize (H x). lia.
Qed.

Lemma updateActions_length (isMac : bool) (menu : Menu) (target : list IAction)
    (title : string) :
  (List.length (updateActions isMac menu target title)
   <= List.length (items menu) - 1)%nat.
Proof.
  rewrite updateActions_eq, length_removelast.
  pose proof (flat_map_length_le (constructed isMac title) (items menu)
                (constructed_length isMac title)).
  lia.
Qed.

(** X19.  A build is shorter than the menu it is built from: at most one
    action less than there are items, and nothing at all for a menu of one
    item or none, whatever that item is. *)
Theorem build_shorter_than_menu (isMac : bool) (menu : Menu) (target : list IAction)
    (title : string) :
  (List.length (updateActions isMac menu target title)
   <= List.length (items menu) - 1)%nat
  /\ ((List.length (items menu) <= 1)%nat ->
      updateActions isMac menu target title = []).
Proof.
  split; [apply updateActions_length |].
  intros H. pose proof (updateActions_length isMac menu target title) as Hl.
  destruct (updateActions isMac menu target title); [reflexivity | simpl in Hl; lia].
Qed.

Lemma build_shorter_than_menu_witness :
  (List.length (items file_only) <= 1)%nat
  /\ updateActions false file_only [] "File" = [].
Proof.
  assert (H : (List.length (items file_only) <= 1)%nat) by (simpl; lia).
  split; [exact H |].
  exact (proj2 (build_shorter_than_menu false file_only [] "File") H).
Defined.

Lemma removelast_map {A B} (f : A -> B) (l : list A) :
  removelast (map f l) = map f (removelast l).
Proof.
  induction l as [|x [|y l] IH]; simpl in *; try reflexivity.
  now rewrite IH.
Qed.

(** X20.  For a menu whose items have no submenu, the build is the list
    of the actions of all items but the last, in the order of the items,
    each with the id, enabled and checked state, tool tip and click
    handler of its item and the label passed through
    [mnemonicMenuLabel]. *)
Theorem flat_menu_build (isMac : bool) (menu : Menu) (target : list IAction)
    (title : string) :
  (forall item, In item (items menu) -> submenu item = None) ->
  updateActions isMac menu target title
  = map (action_of isMac) (removelast (items menu)).
Proof.
  intros H. rewrite updateActions_eq, <- removelast_map. f_equal.
  induction (items menu) as [|x l IH]; [reflexivity |].
  simpl. unfold constructed at 1. rewrite (H x (or_introl eq_refl)).
  unfold action_of at 1. simpl. f_equal.
  apply IH. intros y Hy. apply H. now right.
Qed.

Lemma flat_menu_build_witness :
  (forall item, In item (items edit_menu) -> submenu item = None)
  /\ updateActions false edit_menu [] "Edit"
     = [action_of false (leaf "undo" "Undo"); action_of false (leaf "redo" "Redo")].
Proof.
  assert (H : forall item, In item (items edit_menu) -> submenu item = None).
  { intros item [<- | [<- | [<- | []]]]; reflexivity. }
  split; [exact H |].
  exact (flat_menu_build false edit_menu [] "Edit" H).
Defined.

(** X22.  An item whose submenu has one item or none is never shown: the
    loop pushes nothing for it. *)
Theorem small_submenu_never_shown (isMac : bool) (title : string) (item : MenuItem)
    (sub : Menu) :
  submenu item = Some sub ->
  (List.length (items sub) <= 1)%nat ->
  constructed isMac title item = [].
Proof.
  intros Hsub Hlen. unfold constructed. rewrite Hsub. cbv zeta.
  pose proof (updateActions_length isMac sub [] title) as Hl.
  destruct (updateActions isMac sub [] title); [reflexivity | simpl in Hl; lia].
Qed.

Lemma small_submenu_never_shown_witness :
  submenu (parent "Help" [leaf "about" "About"]) = Some (mkMenu [leaf "about" "About"])
  /\ (List.length (items (mkMenu [leaf "about" "About"])) <= 1)%nat
  /\ constructed false "Help" (parent "Help" [leaf "about" "About"]) = [].
Proof.
  assert (H : (List.length (items (mkMenu [leaf "about" "About"])) <= 1)%nat)
    by (simpl; lia).
  split; [reflexivity | split; [exact H |]].
  exact (small_submenu_never_shown false "Help" (parent "Help" [leaf "about" "About"])
           (mkMenu [leaf "about" "About"]) eq_refl H).
Defined.

(** ** More on the relay *)

(** X23.  Attaching sends nothing by itself, and an event other than the
    four relayed ones makes the attached window send exactly what it sent
    before. *)
Theorem other_events_not_relayed (event : string) (bw : BrowserWindow) :
  event <> "enter-full-screen"%string -> event <> "leave-full-screen"%string ->
  event <> "focus"%string -> event <> "blur"%string ->
  sent (emit event (attach bw)) = sent (emit event bw)
  /\ sent (attach bw) = sent bw.
Proof.
  intros H1 H2 H3 H4. split; [| reflexivity].
  rewrite emit_attach.
  apply not_eq_sym, String.eqb_neq in H1, H2, H3, H4.
  rewrite H1, H2, H3, H4. simpl. now rewrite app_nil_r.
Qed.

Lemma other_events_not_relayed_witness :
  sent (emit "resize" (attach (mkBrowserWindow [800; 600] [] [])))
  = sent (emit "resize" (mkBrowserWindow [800; 600] [] [])).
Proof.
  apply (other_events_not_relayed "resize" (mkBrowserWindow [800; 600] [] []));
    discriminate.
Defined.

(** X24.  Attaching twice to the same window relays every event twice:
    nothing guards against a second attachment. *)
Theorem attach_twice_relays_twice (bw : BrowserWindow) :
  sent (emit "enter-full-screen" (attach (attach bw)))
  = sent (emit "enter-full-screen" bw)
    ++ [("window-fullscreen"%string, true); ("window-fullscreen"%string, true)]
  /\ sent (emit "leave-full-screen" (attach (attach bw)))
     = sent (emit "leave-full-screen" bw)
       ++ [("window-fullscreen"%string, false); ("window-fullscreen"%string, false)]
  /\ sent (emit "focus" (attach (attach bw)))
     = sent (emit "focus" bw)
       ++ [("window-focus"%string, true); ("window-focus"%string, true)]
  /\ sent (emit "blur" (attach (attach bw)))
     = sent (emit "blur" bw)
       ++ [("window-focus"%string, false); ("window-focus"%string, false)].
Proof.
  repeat split; rewrite !emit_attach; simpl; rewrite <- ?app_assoc; reflexivity.
Qed.

(** X25.  For a window whose minimum size has a width and a height, the
    minimum height set by attaching is never zero (a former height of zero
    becomes 270), and attaching again sets the same minimum size.  A
    minimum size with fewer than two entries gives the height 270. *)
Theorem attach_minimum_size_settles (bw : BrowserWindow) (w h : Z) :
  minimumSize bw = [w; h] ->
  minimumSize (attach bw) = [400; if h =? 0 then 270 else h]
  /\ nth 1 (minimumSize (attach bw)) 0 <> 0
  /\ minimumSize (attach (attach bw)) = minimumSize (attach bw)
  /\ (forall sizes, (List.length sizes < 2)%nat -> attach_height sizes = 270).
Proof.
  intros Hs.
  assert (Hh : forall a b, attach_height [a; b] = if b =? 0 then 270 else b).
  { intros a b. unfold attach_height, truthy_at, truthy. simpl.
    destruct (b =? 0); reflexivity. }
  assert (H1 : minimumSize (attach bw) = [400; if h =? 0 then 270 else h]).
  { unfold attach. simpl. unfold getMinimumSize. now rewrite Hs, Hh. }
  split; [exact H1 |]. split; [| split].
  - rewrite H1. simpl. destruct (Z.eqb_spec h 0); lia.
  - change (minimumSize (attach (attach bw)))
      with [400; attach_height (minimumSize (attach bw))].
    rewrite H1, Hh. destruct (Z.eqb_spec h 0) as [-> | Hn]; [reflexivity |].
    apply Z.eqb_neq in Hn. now rewrite Hn.
  - intros [|a [|b sizes]] Hl; try reflexivity. simpl in Hl. lia.
Qed.

Lemma attach_minimum_size_settles_witness :
  minimumSize (attach (mkBrowserWindow [800; 0] [] [])) = [400; 270]
  /\ minimumSize (attach (attach (mkBrowserWindow [800; 600] [] []))) = [400; 600].
Proof.
  split.
  - exact (proj1 (attach_minimum_size_settles (mkBrowserWindow [800; 0] [] []) 800 0
                    eq_refl)).
  - pose proof (attach_minimum_size_settles (mkBrowserWindow [800; 600] [] []) 800 600
                  eq_refl) as (H1 & _ & H2 & _).
    rewrite H2. exact H1.
Defined.

(** ** Decoding is onto; state kept by [updateMenu] *)

Lemma pack_bits (k : Z) (w a s c : bool) :
  0 <= k < 256 ->
  0 <= pack k w a s c < 2 ^ 12
  /\ pack k w a s c mod 256 = k
  /\ Z.testbit (pack k w a s c) 8 = w
  /\ Z.testbit (pack k w a s c) 9 = a
  /\ Z.testbit (pack k w a s c) 10 = s
  /\ Z.testbit (pack k w a s c) 11 = c.
Proof.
  intros Hk. unfold pack.
  set (hi := Z.b2z w + 2 * Z.b2z a + 4 * Z.b2z s + 8 * Z.b2z c).
  assert (Hhi : 0 <= hi < 16) by (unfold hi; destruct w, a, s, c; simpl; lia).
  assert (Hdiv : (k + 256 * hi) / 2 ^ 8 = hi).
  { change (2 ^ 8) with 256. symmetry. apply (Z.div_unique _ 256 hi k); lia. }
  assert (Hbit : forall j, 0 <= j -> Z.testbit (k + 256 * hi) (j + 8) = Z.testbit hi j).
  { intros j Hj. rewrite <- Z.div_pow2_bits by lia. now rewrite Hdiv. }
  split; [change (2 ^ 12) with 4096; lia |].
  split.
  { symmetry. apply (Z.mod_unique _ 256 hi k); lia. }
  change 8 with (0 + 8) at 1. change 9 with (1 + 8). change 10 with (2 + 8).
  change 11 with (3 + 8).
  rewrite !Hbit by lia.
  unfold hi. destruct w, a, s, c; repeat split.
Qed.

(** X27.  On a given OS every keybinding whose key code is below 256 is
    the decoding of one and only one 12-bit number. *)
Theorem decode_onto (os : OperatingSystem) (kb : SimpleKeybinding.t) :
  0 <= SimpleKeybinding.keyCode kb < 256 ->
  exists! p, 0 <= p < 2 ^ 12 /\ createSimpleKeybinding p os = kb.
Proof.
  intros Hk. destruct kb as [c s a m k]. simpl in Hk.
  set (p := if OperatingSystem_eqb os Macintosh then pack k c a s m else pack k m a s c).
  assert (Hp : 0 <= p < 2 ^ 12 /\ createSimpleKeybinding p os
                                  = SimpleKeybinding.new c s a m k).
  { unfold p. rewrite createSimpleKeybinding_fields.
    destruct (OperatingSystem_eqb os Macintosh).
    - destruct (pack_bits k c a s m Hk) as (Hr & Hl & H8 & H9 & H10 & H11).
      split; [exact Hr |]. now rewrite Hl, H8, H9, H10, H11.
    - destruct (pack_bits k m a s c Hk) as (Hr & Hl & H8 & H9 & H10 & H11).
      split; [exact Hr |]. now rewrite Hl, H8, H9, H10, H11. }
  exists p. split; [exact Hp |].
  intros q [Hq Hdec]. destruct Hp as [Hr Hdp].
  rewrite <- Hdec in Hdp. apply createSimpleKeybinding_eq_iff in Hdp.
  rewrite !Z.mod_small in Hdp by assumption. exact Hdp.
Qed.

Lemma decode_onto_witness :
  exists! p, 0 <= p < 2 ^ 12
             /\ createSimpleKeybinding p Macintosh
                = SimpleKeybinding.new false true false true 31.
Proof.
  apply (decode_onto Macintosh (SimpleKeybinding.new false true false true 31)).
  simpl. lia.
Defined.

Lemma fold_call_invariant (F : TitlebarState -> MenuItem -> TitlebarState)
    (l : list MenuItem) (s : TitlebarState) :
  (forall st item,
      options_menu (F st item) = options_menu st
      /\ _menubar (F st item) = _menubar st
      /\ (_menubar st = false -> F st item = st)) ->
  options_menu (fold_left F l s) = options_menu s
  /\ _menubar (fold_left F l s) = _menubar s
  /\ (_menubar s = false -> fold_left F l s = s).
Proof.
  intros HF. revert s. induction l as [|item l IH]; intros s; simpl.
  - repeat split.
  - destruct (HF s item) as (H1 & H2 & H3).
    destruct (IH (F s item)) as (I1 & I2 & I3).
    rewrite I1, I2, H1, H2. repeat split.
    intros Hm. rewrite I3 by (now rewrite H2). now apply H3.
Qed.

(** X26.  Off Macintosh [updateMenu] always records the menu in the
    options; afterwards there is a menu bar when the call was a first-time
    one or there was one before; a later call on a title bar without menu
    bar makes no call on any menu bar.  On Macintosh the state is left as
    it is. *)
Theorem updateMenu_state (menu : Menu) (firstTime : bool) (st : TitlebarState) :
  options_menu (updateMenu false menu firstTime st) = Some menu
  /\ _menubar (updateMenu false menu firstTime st) = firstTime || _menubar st
  /\ (firstTime = false -> _menubar st = false ->
      menubar_calls (updateMenu false menu firstTime st) = menubar_calls st)
  /\ updateMenu true menu firstTime st = st.
Proof.
  unfold updateMenu. simpl negb. cbv iota.
  match goal with
  | |- context [fold_left ?F ?l ?s] =>
      destruct (fold_call_invariant F l s) as (H1 & H2 & H3)
  end.
  { intros a item. destruct (_menubar a) eqn:Ha, firstTime; simpl; rewrite ?Ha;
      repeat split; discriminate. }
  rewrite H1, H2.
  destruct st as [mb om calls].
  repeat split.
  - destruct mb, firstTime; reflexivity.
  - destruct mb, firstTime; reflexivity.
  - intros -> Hm. simpl in Hm. subst mb. rewrite H3 by reflexivity. reflexivity.
Qed.

Lemma updateMenu_state_witness :
  let st := mkTitlebarState false None [] in
  menubar_calls (updateMenu false file_edit false st) = []
  /\ options_menu (updateMenu false file_edit false st) = Some file_edit.
Proof.
  intros st.
  pose proof (updateMenu_state file_edit false st) as (H1 & _ & H3 & _).
  split; [exact (H3 eq_refl eq_refl) | exact H1].
Defined.
